(** * MediaDebugFastDumpImp: the asynchronous capture-and-dump pipeline

    A shallow embedding of
    [media_softlet/agnostic/common/shared/media_debug_fast_dump_imp.hpp].

    - [size_t] values are integers in [0, 2^64) with the wrap-around of
      every addition, subtraction and multiplication written out.
    - The members of the class are the fields of [State]; the closures
      chosen once by the constructor ([m_2CacheTask], [m_allocate],
      [m_write], [m_writeError]) are tags stored in the state and applied
      by the functions of the same name.
    - The [std::shared_ptr<Res>] objects live in a store ([m_heap]); the
      vectors of the pool and the queue hold indices into it, so that a
      buffer reached from the pool and from the queue is one object.
    - The answers of the collaborators (clock, GMM, resource backend, media
      copy) are inputs of the call they belong to.
    - The pool [m_resPool] is the list of the nodes of the [std::map], in
      the order of their insertion: a node is a key and the vector of
      buffers stored under it, and the position of a node stands for the
      reference [m_resPool[resInfo]] yields. [ResInfoCmp] is not a strict
      weak ordering ([ResInfoCmp_not_lexicographic]), so the node at which
      a search of the map ends is not fixed by this source: it depends on
      the tree of the library. It is an input of the call, like the
      answers of the collaborators. Whatever the tree, a search ends at a
      node only if neither key compares less than the other, and
      [operator[]] inserts a node with an empty vector when the search
      ends at none.
    - Threads are interleaved at the granularity of the critical sections
      of [m_mutex]; a [std::condition_variable::wait] with a predicate is a
      step guarded by that predicate. The scheduler releases the lock
      before it calls [std::async]: taking the front job and launching the
      task for it are two steps, and any other thread can run in
      between. *)

From stdpp Require Import strings list.

Local Open Scope Z_scope.

(** ** [size_t] arithmetic *)

Module SizeT.

Definition modulus : Z := 2 ^ 64.

(** [static_cast<size_t>(-1)] *)
Definition max : Z := modulus - 1.

Definition wrap (z : Z) : Z := z mod modulus.

Definition add (a b : Z) : Z := wrap (a + b).
Definition sub (a b : Z) : Z := wrap (a - b).
Definition mul (a b : Z) : Z := wrap (a * b).

(** The values a [size_t] variable can hold. *)
Definition ok (z : Z) : Prop := 0 <= z <= max.

End SizeT.

(** ** Data model *)

(** [enum Mos_MemPool] (declared in the MOS headers). *)
Inductive Mos_MemPool :=
| MOS_MEMPOOL_VIDEOMEMORY
| MOS_MEMPOOL_DEVICEMEMORY
| MOS_MEMPOOL_SYSTEMMEMORY.

#[global] Instance Mos_MemPool_eq_dec : EqDecision Mos_MemPool.
Proof. solve_decision. Defined.

(** [ResInfo = MOS_ALLOC_GFXRES_PARAMS], restricted to the fields the class
    reads: the four fields of the pool key and the memory type written by
    the allocator. [TileType] and [Flags.bCacheable] are set to constants
    and never read again. [Type] and [Format] hold the values of the
    enumerations [MOS_GFXRES_TYPE] and [MOS_FORMAT]. *)
Record ResInfo := mkResInfo {
  Type_ : Z;
  dwWidth : Z;
  dwHeight : Z;
  Format : Z;
  dwMemType : Mos_MemPool
}.

(** [struct ResInfoCmp]: the [Compare] of the pool's [std::map]. *)
Definition ResInfoCmp (a b : ResInfo) : bool :=
  if Type_ a <? Type_ b then true
  else if dwWidth a <? dwWidth b then true
  else if dwHeight a <? dwHeight b then true
  else if Format a <? Format b then true
  else false.

(** The lexicographic order on (Type, dwWidth, dwHeight, Format), written
    from the data model of the specification, to be compared with
    [ResInfoCmp]. *)
Definition ResInfo_lex_lt (a b : ResInfo) : Prop :=
  Type_ a < Type_ b
  \/ (Type_ a = Type_ b /\ dwWidth a < dwWidth b)
  \/ (Type_ a = Type_ b /\ dwWidth a = dwWidth b /\ dwHeight a < dwHeight b)
  \/ (Type_ a = Type_ b /\ dwWidth a = dwWidth b /\ dwHeight a = dwHeight b
      /\ Format a < Format b).

(** Two keys are one key of a [std::map] when neither compares less than the
    other; [Shape] is the class of a key under that equivalence
    (see [ResInfoCmp_equiv]). *)
Definition Shape : Type := Z * Z * Z * Z.

(** A node of the pool: [std::pair<const ResInfo,
    std::vector<std::shared_ptr<Res>>>], the key by its class and the
    buffers by their indices in the store. *)
Abbreviation Node := (Shape * list nat)%type.

Definition shape (r : ResInfo) : Shape :=
  (Type_ r, dwWidth r, dwHeight r, Format r).

(** [struct Res]; the [MOS_RESOURCE] handle of a staging buffer belongs to
    the backend, the index of the buffer in the store stands for it. *)
Record Res := mkRes {
  occupied : bool;
  size : Z;
  offset : Z;
  name : string
}.

(** [struct MemMng] *)
Record MemMng := mkMemMng {
  policy : Mos_MemPool;
  cap : Z;
  usage : Z
}.

(** [MediaDebugFastDump::Config] (declared in media_debug_fast_dump.h),
    with the fields the constructor reads. *)
Record Config := mkConfig {
  write2File : bool;
  write2Trace : bool;
  informOnError : bool;
  allowDataLoss : bool;
  maxPercentSharedMem : Z;
  maxPercentLocalMem : Z;
  samplingTime : Z;
  samplingInterval : Z
}.

(** The fields of the adapter information the constructor reads. *)
Record AdapterInfo := mkAdapterInfo {
  SystemSharedMemory : Z;
  DedicatedVideoMemory : Z
}.

(** The closures stored in the [std::function] members. *)
Inductive CacheTaskFn := CacheAlways | CacheSampling.
Inductive AllocateFn := AllocateTwoTiers | AllocateOneTier.
Inductive WriteFn := WriteFile | WriteTrace | WriteFileAndTrace | WriteNothing.
Inductive WriteErrorFn := WriteErrorInform | WriteErrorIgnore.

Record State := mkState {
  m_allowDataLoss : bool;
  m_memMng1st : MemMng;
  m_memMng2nd : MemMng;
  m_samplingTime : Z;
  m_samplingInterval : Z;
  m_resPool : list Node;
  m_resQueue : list nat;
  m_2CacheTask : CacheTaskFn;
  m_allocate : AllocateFn;
  m_write : WriteFn;
  m_writeError : WriteErrorFn;
  m_ready4Dump : bool;
  m_stopScheduler : bool;
  m_heap : list Res
}.

Definition set_memMng1st (v : MemMng) (s : State) : State :=
  mkState (m_allowDataLoss s) v (m_memMng2nd s) (m_samplingTime s)
    (m_samplingInterval s) (m_resPool s) (m_resQueue s) (m_2CacheTask s)
    (m_allocate s) (m_write s) (m_writeError s) (m_ready4Dump s)
    (m_stopScheduler s) (m_heap s).

Definition set_memMng2nd (v : MemMng) (s : State) : State :=
  mkState (m_allowDataLoss s) (m_memMng1st s) v (m_samplingTime s)
    (m_samplingInterval s) (m_resPool s) (m_resQueue s) (m_2CacheTask s)
    (m_allocate s) (m_write s) (m_writeError s) (m_ready4Dump s)
    (m_stopScheduler s) (m_heap s).

Definition set_resPool (v : list Node) (s : State) : State :=
  mkState (m_allowDataLoss s) (m_memMng1st s) (m_memMng2nd s)
    (m_samplingTime s) (m_samplingInterval s) v (m_resQueue s)
    (m_2CacheTask s) (m_allocate s) (m_write s) (m_writeError s)
    (m_ready4Dump s) (m_stopScheduler s) (m_heap s).

Definition set_resQueue (v : list nat) (s : State) : State :=
  mkState (m_allowDataLoss s) (m_memMng1st s) (m_memMng2nd s)
    (m_samplingTime s) (m_samplingInterval s) (m_resPool s) v
    (m_2CacheTask s) (m_allocate s) (m_write s) (m_writeError s)
    (m_ready4Dump s) (m_stopScheduler s) (m_heap s).

Definition set_ready4Dump (v : bool) (s : State) : State :=
  mkState (m_allowDataLoss s) (m_memMng1st s) (m_memMng2nd s)
    (m_samplingTime s) (m_samplingInterval s) (m_resPool s) (m_resQueue s)
    (m_2CacheTask s) (m_allocate s) (m_write s) (m_writeError s)
    v (m_stopScheduler s) (m_heap s).

Definition set_stopScheduler (v : bool) (s : State) : State :=
  mkState (m_allowDataLoss s) (m_memMng1st s) (m_memMng2nd s)
    (m_samplingTime s) (m_samplingInterval s) (m_resPool s) (m_resQueue s)
    (m_2CacheTask s) (m_allocate s) (m_write s) (m_writeError s)
    (m_ready4Dump s) v (m_heap s).

Definition set_heap (v : list Res) (s : State) : State :=
  mkState (m_allowDataLoss s) (m_memMng1st s) (m_memMng2nd s)
    (m_samplingTime s) (m_samplingInterval s) (m_resPool s) (m_resQueue s)
    (m_2CacheTask s) (m_allocate s) (m_write s) (m_writeError s)
    (m_ready4Dump s) (m_stopScheduler s) v.

Definition add_usage (n : Z) (m : MemMng) : MemMng :=
  mkMemMng (policy m) (cap m) (SizeT.add (usage m) n).

(** ** Observable actions *)

(** A queued job: the buffer and the fields [DoDump] reads from it. *)
Record Job := mkJob {
  job_buf : nat;
  job_name : string;
  job_offset : Z;
  job_size : Z
}.

(** What [m_write] is handed as data: the address of the one static byte
    [dummy] of [m_writeError], or the locked staging buffer plus an
    offset. *)
Inductive Data :=
| DataDummy
| DataBuffer (buf : nat) (off : Z).

(** The calls the pipeline makes on its collaborators and on its own
    reporting closures, in the order they are made. *)
Inductive Event :=
| EvWriteError (nm err : string)        (* m_writeError(nm, err) *)
| EvWrite (nm : string) (d : Data) (sz : Z)  (* m_write(nm, d, sz) *)
| EvAllocated (pool : Mos_MemPool) (resSize : Z)
                                        (* pfnAllocateResource succeeded *)
| EvEnqueue (j : Job)                   (* m_resQueue.emplace *)
| EvDoDump (j : Job).                   (* DoDump entered *)

(** What reaches the persistence sinks. *)
Inductive Sink :=
| SinkFile (nm : string) (d : Data) (sz : Z)    (* Write2File *)
| SinkTrace (nm : string) (d : Data) (sz : Z).  (* MOS_TraceDataDump *)

(** ** The constructor *)

(** [static_cast<size_t>(mem) / 100 * percent] *)
Definition percent_of (mem percent : Z) : Z :=
  SizeT.mul (SizeT.wrap mem / 100) percent.

Definition init (cfg : option Config) (adapter : option AdapterInfo) : State :=
  let w2f := from_option write2File true cfg in
  let w2t := from_option write2Trace false cfg in
  let inform := from_option informOnError true cfg in
  let maxPercentShared :=
    SizeT.wrap (from_option maxPercentSharedMem 75 cfg) in
  let maxPercentLocal :=
    SizeT.wrap (from_option maxPercentLocalMem 0 cfg) in
  let time := SizeT.wrap (from_option samplingTime 0 cfg) in
  let interval := SizeT.wrap (from_option samplingInterval 0 cfg) in
  let cap1 :=
    match adapter with
    | Some a => percent_of (SystemSharedMemory a) maxPercentShared
    | None => 0
    end in
  let cap2 :=
    match adapter with
    | Some a => percent_of (DedicatedVideoMemory a) maxPercentLocal
    | None => 0
    end in
  let cap1 := if cap1 =? 0 then SizeT.max else cap1 in
  {| m_allowDataLoss := from_option allowDataLoss true cfg;
     m_memMng1st := mkMemMng MOS_MEMPOOL_SYSTEMMEMORY cap1 0;
     m_memMng2nd := mkMemMng MOS_MEMPOOL_VIDEOMEMORY cap2 0;
     m_samplingTime := time;
     m_samplingInterval := interval;
     m_resPool := [];
     m_resQueue := [];
     m_2CacheTask :=
       if SizeT.add time interval =? 0 then CacheAlways else CacheSampling;
     m_allocate := if 0 <? cap2 then AllocateTwoTiers else AllocateOneTier;
     m_write :=
       match w2f, w2t with
       | true, false => WriteFile
       | false, true => WriteTrace
       | true, true => WriteFileAndTrace
       | false, false => WriteNothing
       end;
     m_writeError := if inform then WriteErrorInform else WriteErrorIgnore;
     m_ready4Dump := true;
     m_stopScheduler := false;
     m_heap := [] |}.

(** ** The closures *)

(** [m_2CacheTask()], [elapsed] being the count of
    [duration_cast<MS>(Clock::now() - m_startTP)]. *)
Definition m_2CacheTask_call (s : State) (elapsed : Z) : bool :=
  match m_2CacheTask s with
  | CacheAlways => true
  | CacheSampling =>
      elapsed mod SizeT.add (m_samplingTime s) (m_samplingInterval s)
      <=? m_samplingTime s
  end.

(** [m_allocate(resInfo, res, resSize)]; [backend_ok] is whether
    [pfnAllocateResource] returns [MOS_STATUS_SUCCESS]. The result is the
    returned flag, [resInfo] as the closure leaves it, the state and the
    actions. *)
Definition m_allocate_call (s : State) (resInfo : ResInfo) (resSize : Z)
    (backend_ok : bool) : bool * ResInfo * State * list Event :=
  let with_type (t : Mos_MemPool) :=
    mkResInfo (Type_ resInfo) (dwWidth resInfo) (dwHeight resInfo)
      (Format resInfo) t in
  let m1 := m_memMng1st s in
  let m2 := m_memMng2nd s in
  match m_allocate s with
  | AllocateTwoTiers =>
      let over1 := cap m1 <? SizeT.add (usage m1) resSize in
      let over2 := cap m2 <? SizeT.add (usage m2) resSize in
      if over1 && over2 then (false, resInfo, s, [])
      else
        let t := if over1 then policy m2 else policy m1 in
        if backend_ok then
          let s1 :=
            set_memMng1st
              (add_usage (if decide (t = policy m1) then resSize else 0) m1)
              s in
          let s2 :=
            set_memMng2nd
              (add_usage (if decide (t = policy m2) then resSize else 0) m2)
              s1 in
          (true, with_type t, s2, [EvAllocated t resSize])
        else (false, with_type t, s, [])
  | AllocateOneTier =>
      if cap m1 <? SizeT.add (usage m1) resSize then (false, resInfo, s, [])
      else
        if backend_ok then
          (true, with_type (policy m1),
           set_memMng1st (add_usage resSize m1) s,
           [EvAllocated (policy m1) resSize])
        else (false, with_type (policy m1), s, [])
  end.

(** [m_write(name, data, size)]: what is handed to the sinks. With both
    sinks the file write runs beside the trace write and is joined. *)
Definition m_write_call (f : WriteFn) (nm : string) (d : Data) (sz : Z)
    : list Sink :=
  match f with
  | WriteFile => [SinkFile nm d sz]
  | WriteTrace => [SinkTrace nm d sz]
  | WriteFileAndTrace => [SinkFile nm d sz; SinkTrace nm d sz]
  | WriteNothing => []
  end.

(** [sizeof(dummy)] for [static const uint8_t dummy = 0]. *)
Definition sizeof_dummy : Z := 1.

(** [m_writeError(name, error)]: the write done by the detached thread. *)
Definition m_writeError_call (s : State) (nm err : string) : list Sink :=
  match m_writeError s with
  | WriteErrorInform =>
      m_write_call (m_write s) (nm +:+ "." +:+ err) DataDummy sizeof_dummy
  | WriteErrorIgnore => []
  end.

(** The sink writes an action stands for. *)
Definition sinks (s : State) (e : Event) : list Sink :=
  match e with
  | EvWriteError nm err => m_writeError_call s nm err
  | EvWrite nm d sz => m_write_call (m_write s) nm d sz
  | _ => []
  end.

(** ** [DoDump] *)

Definition job_of (heap : list Res) (i : nat) : option Job :=
  r ← heap !! i; Some (mkJob i (name r) (offset r) (size r)).

(** [lock_ok] is whether [pfnLockResource] returns a non-null pointer. *)
Definition DoDump (heap : list Res) (i : nat) (lock_ok : bool) : list Event :=
  match job_of heap i with
  | Some j =>
      [EvDoDump j;
       if lock_ok
       then EvWrite (job_name j) (DataBuffer i (job_offset j)) (job_size j)
       else EvWriteError (job_name j) "lock_failed"]
  | None => []
  end.

(** ** [AddTask] *)

(** The arguments of a call and the answers of the collaborators during
    it. *)
Record Request := mkRequest {
  rq_elapsed : Z;              (* the clock, as read by m_2CacheTask *)
  rq_gmm : option Z;           (* pGmmResInfo: null, or GetSizeMainSurface() *)
  rq_resType : Z;              (* GetResType(&res) *)
  rq_details : option (Z * Z * Z);
                               (* pfnGetResourceInfo: failure, or
                                  dwWidth, dwHeight, Format *)
  rq_alloc_ok : bool;          (* pfnAllocateResource, if called *)
  rq_copy_ok : bool;           (* SurfaceCopy, if called without waiting *)
  rq_name : string;
  rq_dumpSize : Z;
  rq_offset : Z;
  rq_found : option nat        (* the node the search of m_resPool ends at,
                                  if it ends at one *)
}.

(** The locals of a producer suspended in [m_cond.wait]. *)
Record Waiter := mkWaiter {
  wt_node : nat;               (* the reference resArray *)
  wt_name : string;
  wt_dumpSize : Z;
  wt_offset : Z;
  wt_resSize : Z
}.

Inductive Outcome :=
| Returned (s : State) (evs : list Event)
| Waiting (s : State) (w : Waiter).

(** [std::find_if] for the first buffer with [occupied == false]. *)
Fixpoint find_free (heap : list Res) (resArray : list nat) : option nat :=
  match resArray with
  | [] => None
  | i :: rest =>
      match heap !! i with
      | Some r => if occupied r then find_free heap rest else Some i
      | None => find_free heap rest
      end
  end.

(** From [SurfaceCopy] to [m_resQueue.emplace], for the buffer [i] found. *)
Definition stage (s : State) (i : nat) (nm : string)
    (dumpSize off resSize : Z) (copy_ok : bool) : State * list Event :=
  if copy_ok then
    let sz := if dumpSize =? 0 then SizeT.sub resSize off else dumpSize in
    (set_resQueue (m_resQueue s ++ [i])
       (set_heap (<[i := mkRes true sz off nm]> (m_heap s)) s),
     [EvEnqueue (mkJob i nm off sz)])
  else (s, [EvWriteError nm "surface_copy_failed"]).

(** The vector of node [b] of the pool. *)
Definition bucket (s : State) (b : nat) : list nat :=
  from_option snd [] (m_resPool s !! b).

(** The end of a search of the map for [key]: [found] is taken only if it
    is a node of the pool whose key is equivalent to [key]; any other
    answer is a search that ends at no node. *)
Definition find_node (pool : list Node) (key : Shape) (found : option nat)
    : option nat :=
  b ← found;
  n ← pool !! b;
  if decide (n.1 = key) then Some b else None.

(** [m_resPool[resInfo]]: the pool after the call and the node it yields,
    a new node with an empty vector when the search ended at none. *)
Definition m_resPool_at (s : State) (key : Shape) (found : option nat)
    : State * nat :=
  match find_node (m_resPool s) key found with
  | Some b => (s, b)
  | None =>
      (set_resPool (m_resPool s ++ [(key, [])]) s, length (m_resPool s))
  end.

(** [resArray.emplace_back(std::move(tmpRes))] on node [b]. *)
Definition emplace_back (b i : nat) (pool : list Node) : list Node :=
  alter (fun n : Node => (n.1, n.2 ++ [i])) b pool.

(** The block of [AddTask] that runs with [m_mutex] held: "prepare
    resource pool and resource queue". *)
Definition AddTask_locked (s : State) (rq : Request) (resInfo : ResInfo)
    (resSize : Z) : Outcome :=
  let key := shape resInfo in
  (* auto &resArray = m_resPool[resInfo]; *)
  let b := (m_resPool_at s key (rq_found rq)).2 in
  let s := (m_resPool_at s key (rq_found rq)).1 in
  let resArray := bucket s b in
  match find_free (m_heap s) resArray with
  | Some i =>
      let '(s', evs) :=
        stage s i (rq_name rq) (rq_dumpSize rq) (rq_offset rq) resSize
          (rq_copy_ok rq) in
      Returned s' evs
  | None =>
      let '(ok, _, sa, evs_a) :=
        m_allocate_call s resInfo resSize (rq_alloc_ok rq) in
      if ok then
        let i := length (m_heap sa) in
        let sa :=
          set_resPool (emplace_back b i (m_resPool sa))
            (set_heap (m_heap sa ++ [mkRes false 0 0 ""]) sa) in
        let '(s', evs) :=
          stage sa i (rq_name rq) (rq_dumpSize rq) (rq_offset rq) resSize
            (rq_copy_ok rq) in
        Returned s' (evs_a ++ evs)
      else if negb (m_allowDataLoss s)
              && negb (bool_decide (resArray = [])) then
        Waiting sa
          (mkWaiter b (rq_name rq) (rq_dumpSize rq) (rq_offset rq) resSize)
      else Returned sa [EvWriteError (rq_name rq) "discarded"]
  end.

Definition AddTask (s : State) (rq : Request) : Outcome :=
  if negb (m_2CacheTask_call s (rq_elapsed rq)) then Returned s []
  else
    match rq_gmm rq with
    | None => Returned s [EvWriteError (rq_name rq) "get_surface_size_failed"]
    | Some sz =>
        (* resSize = static_cast<size_t>(GetSizeMainSurface()) *)
        let resSize := SizeT.wrap sz in
        if resSize <? SizeT.add (rq_offset rq) (rq_dumpSize rq) then
          Returned s [EvWriteError (rq_name rq) "incorrect_size_offset"]
        else
          match rq_details rq with
          | None =>
              Returned s [EvWriteError (rq_name rq) "get_resource_info_failed"]
          | Some (w, h, f) =>
              AddTask_locked s rq
                (mkResInfo (rq_resType rq) w h f MOS_MEMPOOL_VIDEOMEMORY)
                resSize
          end
    end.

(** A waiting producer is woken when its predicate holds: the vector it
    holds a reference to has a free buffer. [None] says that it keeps
    waiting. *)
Definition AddTask_resume (s : State) (w : Waiter) (copy_ok : bool)
    : option (State * list Event) :=
  i ← find_free (m_heap s) (bucket s (wt_node w));
  Some (stage s i (wt_name w) (wt_dumpSize w) (wt_offset w) (wt_resSize w)
          copy_ok).

(** ** [ScheduleTasks], the worker and the destructor *)

(** [m_resQueue.front()->occupied = false] *)
Definition free_buffer (heap : list Res) (i : nat) : list Res :=
  match heap !! i with
  | Some r => <[i := mkRes false (size r) (offset r) (name r)]> heap
  | None => heap
  end.

(** The critical section that ends the worker: the front buffer is freed
    and popped, [m_ready4Dump] is set. [front()] of an empty queue has no
    defined behaviour. *)
Definition worker_release (s : State) : option State :=
  match m_resQueue s with
  | [] => None
  | i :: q =>
      Some (set_ready4Dump true
              (set_resQueue q (set_heap (free_buffer (m_heap s) i) s)))
  end.

(** The loop after the scheduling loop, run with [m_mutex] held:
    [while (!m_resQueue.empty()) { DoDump(front); front->occupied = false;
    pop; }]. [lock_ok i] is the answer of [pfnLockResource] for buffer
    [i]. *)
Fixpoint drain (q : list nat) (heap : list Res) (lock_ok : nat -> bool)
    : list Res * list Event :=
  match q with
  | [] => (heap, [])
  | i :: q' =>
      let evs := DoDump heap i (lock_ok i) in
      let '(heap', evs') := drain q' (free_buffer heap i) lock_ok in
      (heap', evs ++ evs')
  end.

Definition ScheduleTasks_drain (s : State) (lock_ok : nat -> bool)
    : State * list Event :=
  let '(heap, evs) := drain (m_resQueue s) (m_heap s) lock_ok in
  (set_resQueue [] (set_heap heap s), evs).

(** A task launched by [std::async]: its captured [qf] and whether its
    [DoDump] has returned. *)
Record Worker := mkWorker {
  wk_id : nat;
  wk_job : nat;
  wk_dumped : bool
}.

(** Where the scheduler thread is: in the [while (true)] loop at the wait
    on [m_cond]; past [lk.unlock()] and before [std::async], with the job
    [qf] it took; after the [break], at [future.wait()]; or returned. *)
Inductive SchedPc :=
| SchedLoop
| SchedLaunch (qf : nat)
| SchedJoin
| SchedDone.

(** The object and the threads working on it. [launched] counts the tasks
    started so far: [future] is valid once it is positive, and then refers
    to the task numbered [launched - 1]. *)
Record Sys := mkSys {
  shared : State;
  waiters : list Waiter;
  workers : list Worker;
  launched : nat;
  sched : SchedPc
}.

Definition start (cfg : option Config) (adapter : option AdapterInfo) : Sys :=
  mkSys (init cfg adapter) [] [] 0 SchedLoop.

Inductive step : Sys -> list Event -> Sys -> Prop :=
| step_AddTask y rq s' evs :
    AddTask (shared y) rq = Returned s' evs ->
    step y evs (mkSys s' (waiters y) (workers y) (launched y) (sched y))
| step_AddTask_wait y rq s' w :
    AddTask (shared y) rq = Waiting s' w ->
    step y [] (mkSys s' (w :: waiters y) (workers y) (launched y) (sched y))
| step_AddTask_resume y l1 w l2 copy_ok s' evs :
    waiters y = l1 ++ w :: l2 ->
    AddTask_resume (shared y) w copy_ok = Some (s', evs) ->
    step y evs (mkSys s' (l1 ++ l2) (workers y) (launched y) (sched y))
| step_destructor y :
    step y []
      (mkSys (set_stopScheduler true (shared y)) (waiters y) (workers y)
         (launched y) (sched y))
| step_schedule_break y :
    sched y = SchedLoop ->
    m_stopScheduler (shared y) = true ->
    step y [] (mkSys (shared y) (waiters y) (workers y) (launched y) SchedJoin)
| step_schedule_take y qf q :
    sched y = SchedLoop ->
    m_stopScheduler (shared y) = false ->
    m_ready4Dump (shared y) = true ->
    m_resQueue (shared y) = qf :: q ->
    step y []
      (mkSys (set_ready4Dump false (shared y)) (waiters y) (workers y)
         (launched y) (SchedLaunch qf))
| step_schedule_launch y qf :
    sched y = SchedLaunch qf ->
    step y []
      (mkSys (shared y) (waiters y)
         (workers y ++ [mkWorker (launched y) qf false])
         (S (launched y)) SchedLoop)
| step_worker_dump y l1 w l2 lock_ok :
    workers y = l1 ++ w :: l2 ->
    wk_dumped w = false ->
    step y (DoDump (m_heap (shared y)) (wk_job w) lock_ok)
      (mkSys (shared y) (waiters y)
         (l1 ++ mkWorker (wk_id w) (wk_job w) true :: l2)
         (launched y) (sched y))
| step_worker_release y l1 w l2 s' :
    workers y = l1 ++ w :: l2 ->
    wk_dumped w = true ->
    worker_release (shared y) = Some s' ->
    step y [] (mkSys s' (waiters y) (l1 ++ l2) (launched y) (sched y))
| step_schedule_drain y lock_ok s' evs :
    sched y = SchedJoin ->
    (forall w, w ∈ workers y -> S (wk_id w) <> launched y) ->
    ScheduleTasks_drain (shared y) lock_ok = (s', evs) ->
    step y evs (mkSys s' (waiters y) (workers y) (launched y) SchedDone).

(** Executions, with the actions they perform. *)
Inductive exec : Sys -> list Event -> Sys -> Prop :=
| exec_nil y : exec y [] y
| exec_snoc y tr y1 evs y2 :
    exec y tr y1 -> step y1 evs y2 -> exec y (tr ++ evs) y2.



(** The task the scheduler has taken a job for and not launched yet. *)
Definition taken (y : Sys) : nat :=
  match sched y with SchedLaunch _ => 1 | _ => 0 end.

Definition reachable (cfg : option Config) (adapter : option AdapterInfo)
    (tr : list Event) (y : Sys) : Prop :=
  exec (start cfg adapter) tr y.

(** ** Reading a trace *)

Definition enqueued (e : Event) : option Job :=
  match e with EvEnqueue j => Some j | _ => None end.

Definition dumped (e : Event) : option Job :=
  match e with EvDoDump j => Some j | _ => None end.

(** The jobs pushed on the queue, and the jobs [DoDump] ran for, in order. *)
Definition enqueues (tr : list Event) : list Job := omap enqueued tr.
Definition dumps (tr : list Event) : list Job := omap dumped tr.

Definition allocated_size (p : Mos_MemPool) (e : Event) : Z :=
  match e with
  | EvAllocated q n => if decide (q = p) then n else 0
  | _ => 0
  end.

(** The sizes of the buffers the backend allocated from pool [p], summed. *)
Definition allocated (p : Mos_MemPool) (tr : list Event) : Z :=
  foldr (fun e acc => allocated_size p e + acc) 0 tr.

Definition error_markers (tr : list Event) : list (string * string) :=
  omap (fun e => match e with
                 | EvWriteError nm err => Some (nm, err)
                 | _ => None
                 end) tr.

(** The jobs of the buffers of a queue. *)
Definition jobs (heap : list Res) (q : list nat) : list Job :=
  omap (job_of heap) q.

Definition sink_name (k : Sink) : string :=
  match k with SinkFile nm _ _ | SinkTrace nm _ _ => nm end.

Definition sink_data (k : Sink) : Data :=
  match k with SinkFile _ d _ | SinkTrace _ d _ => d end.

Definition sink_size (k : Sink) : Z :=
  match k with SinkFile _ _ sz | SinkTrace _ _ sz => sz end.

(** The capacity of a tier as the specification words it: the memory size
    times the percentage, divided by 100. To be compared with
    [percent_of]. *)
Definition spec_capacity (mem percent : Z) : Z := mem * percent / 100.

(** [m_allocate] returns [false]: no tier has room, or the backend
    fails. *)
Definition allocation_fails (s : State) (resInfo : ResInfo) (resSize : Z)
    (backend_ok : bool) : Prop :=
  exists resInfo' s' evs,
    m_allocate_call s resInfo resSize backend_ok = (false, resInfo', s', evs).

(** The vector [m_resPool[resInfo]] yields in state [s] when the search
    answers [found]. *)
Definition resArray (s : State) (key : Shape) (found : option nat)
    : list nat :=
  bucket (m_resPool_at s key found).1 (m_resPool_at s key found).2.

(** ** What a producer does to the object *)

(** The elementary updates [AddTask] is composed of. *)
Inductive produce1 : State -> list Event -> State -> Prop :=
| produce_error s nm err : produce1 s [EvWriteError nm err] s
| produce_bucket s pool :
    produce1 s [] (set_resPool pool s)
| produce_allocate s resInfo resSize resInfo' s' evs :
    SizeT.ok resSize ->
    m_allocate_call s resInfo resSize true = (true, resInfo', s', evs) ->
    produce1 s evs s'
| produce_buffer s :
    produce1 s [] (set_heap (m_heap s ++ [mkRes false 0 0 ""]) s)
| produce_stage s i r nm off sz :
    m_heap s !! i = Some r ->
    occupied r = false ->
    produce1 s [EvEnqueue (mkJob i nm off sz)]
      (set_resQueue (m_resQueue s ++ [i])
         (set_heap (<[i := mkRes true sz off nm]> (m_heap s)) s)).

Inductive produce : State -> list Event -> State -> Prop :=
| produce_nil s : produce s [] s
| produce_cons s evs1 s1 evs2 s2 :
    produce1 s evs1 s1 -> produce s1 evs2 s2 -> produce s (evs1 ++ evs2) s2.

(** ** A sample run

    Two 64-byte resources of one shape are submitted under the default
    configuration, with every collaborator succeeding. *)

Definition outcome_state (o : Outcome) : State :=
  match o with Returned s _ | Waiting s _ => s end.

Definition outcome_events (o : Outcome) : list Event :=
  match o with Returned _ evs => evs | Waiting _ _ => [] end.

Definition is_returned (o : Outcome) : bool :=
  match o with Returned _ _ => true | Waiting _ _ => false end.

Definition after_AddTask (y : Sys) (rq : Request) : Sys :=
  mkSys (outcome_state (AddTask (shared y) rq)) (waiters y) (workers y)
    (launched y) (sched y).

Definition sample_request (nm : string) (found : option nat) : Request :=
  mkRequest 0 (Some 64) 0 (Some (8, 8, 0)) true true nm 0 0 found.

Definition sample_queued1 : Sys :=
  Eval vm_compute in
    after_AddTask (start None None) (sample_request "first" None).

Definition sample_queued2 : Sys :=
  Eval vm_compute in
    after_AddTask sample_queued1 (sample_request "second" (Some 0%nat)).

Definition sample_taken : Sys :=
  Eval vm_compute in
    mkSys (set_ready4Dump false (shared sample_queued2)) [] [] 0
      (SchedLaunch 0).

Definition sample_dispatched : Sys :=
  Eval vm_compute in
    mkSys (shared sample_taken) [] [mkWorker 0 0 false] 1 SchedLoop.

Definition sample_dumped : Sys :=
  Eval vm_compute in
    mkSys (shared sample_dispatched) [] [mkWorker 0 0 true] 1 SchedLoop.

(** The destructor runs after the scheduler has taken the first job and
    before it has launched the task for it; the task is launched all the
    same. *)
Definition sample_raced : Sys :=
  Eval vm_compute in
    mkSys (set_stopScheduler true (shared sample_taken)) [] [] 0
      (SchedLaunch 0).

Definition sample_raced_launched : Sys :=
  Eval vm_compute in
    mkSys (shared sample_raced) [] [mkWorker 0 0 false] 1 SchedLoop.

Definition sample_stopped : Sys :=
  Eval vm_compute in
    mkSys (set_stopScheduler true (shared sample_queued2)) [] [] 0 SchedJoin.

Definition sample_trace2 : list Event :=
  Eval vm_compute in
    outcome_events (AddTask (init None None) (sample_request "first" None))
    ++ outcome_events
         (AddTask (shared sample_queued1)
            (sample_request "second" (Some 0%nat))).

(** ** Invariants *)

(** What the constructor fixes for the life of the object. *)
Definition settings (s : State) :=
  (m_allowDataLoss s, policy (m_memMng1st s), cap (m_memMng1st s),
   policy (m_memMng2nd s), cap (m_memMng2nd s),
   m_samplingTime s, m_samplingInterval s,
   m_2CacheTask s, m_allocate s, m_write s, m_writeError s).

(** The accounting of the two tiers against the allocations made. *)
Record budget_inv (tr : list Event) (s : State) : Prop := mkBudgetInv {
  budget_usage1 :
    usage (m_memMng1st s)
    = SizeT.wrap (allocated MOS_MEMPOOL_SYSTEMMEMORY tr);
  budget_usage2 :
    usage (m_memMng2nd s)
    = SizeT.wrap (allocated MOS_MEMPOOL_VIDEOMEMORY tr);
  budget_cap1 : usage (m_memMng1st s) <= cap (m_memMng1st s);
  budget_cap2 : usage (m_memMng2nd s) <= cap (m_memMng2nd s);
  budget_pos : forall p, 0 <= allocated p tr;
  budget_tier2 :
    m_allocate s = AllocateOneTier ->
    allocated MOS_MEMPOOL_VIDEOMEMORY tr = 0
}.

(** The occupied buffers are the queued ones, each queued once. *)
Definition heap_ok (s : State) : Prop :=
  NoDup (m_resQueue s)
  /\ forall i, i ∈ m_resQueue s
               <-> exists r, m_heap s !! i = Some r /\ occupied r = true.

(** The queued jobs [DoDump] has not run for yet. *)
Definition pending (y : Sys) : list nat :=
  match workers y with
  | w :: _ =>
      if wk_dumped w then tail (m_resQueue (shared y))
      else m_resQueue (shared y)
  | [] => m_resQueue (shared y)
  end.

Record Inv (s0 : State) (tr : list Event) (y : Sys) : Prop := mkInv {
  inv_settings : settings (shared y) = settings s0;
  inv_budget : budget_inv tr (shared y);
  inv_heap : heap_ok (shared y);
  inv_single : (length (workers y) <= 1)%nat;
  inv_ready :
    m_ready4Dump (shared y) = true
    <-> workers y = [] /\ forall qf, sched y <> SchedLaunch qf;
  inv_front :
    forall w, w ∈ workers y ->
      head (m_resQueue (shared y)) = Some (wk_job w)
      /\ S (wk_id w) = launched y;
  inv_done : sched y = SchedDone -> workers y = [];
  inv_fifo :
    enqueues tr = dumps tr ++ jobs (m_heap (shared y)) (pending y);
  inv_launch :
    forall qf, sched y = SchedLaunch qf ->
      workers y = [] /\ head (m_resQueue (shared y)) = Some qf
}.

(** ** The pool and its buffers *)



Definition allocation (e : Event) : option (Mos_MemPool * Z) :=
  match e with EvAllocated p n => Some (p, n) | _ => None end.

(** How many buffers the backend has allocated. *)
Definition allocations (tr : list Event) : nat :=
  length (omap allocation tr).

(** Everything a run hands to the sinks, in order. [m_write] and
    [m_writeError] are chosen by the constructor and never reassigned, so
    the closures of the last state are those of the whole run. *)
Definition persisted (s : State) (tr : list Event) : list Sink :=
  tr ≫= sinks s.

(** A pipeline with the error reporter off, and a request on a resource
    without GMM information. *)
Definition quiet_cfg : option Config :=
  Some (mkConfig true true false true 75 0 0 0).

Definition sample_failed_request : Request :=
  mkRequest 0 None 0 None true true "frame" 0 0 None.

Definition sample_failed : Sys :=
  after_AddTask (start quiet_cfg None) sample_failed_request.

Definition sample_failed_trace : list Event :=
  outcome_events (AddTask (init quiet_cfg None) sample_failed_request).

(** * Properties *)

(** ** [size_t] arithmetic *)

Module SizeTFacts.

Import SizeT.

Lemma wrap_ok z : ok (wrap z).
Proof.
  unfold ok, wrap, max, modulus.
  pose proof (Z.mod_pos_bound z (2 ^ 64)). lia.
Qed.

Lemma wrap_small z : ok z -> wrap z = z.
Proof.
  unfold ok, wrap, max, modulus. intros H.
  apply Z.mod_small. lia.
Qed.

Lemma add_ok a b : ok (add a b).
Proof. apply wrap_ok. Qed.

Lemma mul_ok a b : ok (mul a b).
Proof. apply wrap_ok. Qed.

Lemma add_exact a b : 0 <= a -> 0 <= b -> a + b <= max -> add a b = a + b.
Proof. intros. apply wrap_small. unfold ok. lia. Qed.

Lemma mul_exact a b : 0 <= a -> 0 <= b -> a * b <= max -> mul a b = a * b.
Proof. intros. apply wrap_small. unfold ok. nia. Qed.

Lemma add_wrap_l a b : add (wrap a) b = wrap (a + b).
Proof. unfold add, wrap. apply Zplus_mod_idemp_l. Qed.

Lemma add_0_r a : ok a -> add a 0 = a.
Proof. intros. unfold add. rewrite Z.add_0_r. by apply wrap_small. Qed.

Lemma max_ok : ok max.
Proof. unfold ok, max, modulus. lia. Qed.

Lemma zero_ok : ok 0.
Proof. unfold ok, max, modulus. lia. Qed.

End SizeTFacts.

(** ** The pool key *)

(** What the comparator computes: some field of [a] is below the same field
    of [b]. *)
Lemma ResInfoCmp_spec a b :
  ResInfoCmp a b = true <->
  Type_ a < Type_ b \/ dwWidth a < dwWidth b
  \/ dwHeight a < dwHeight b \/ Format a < Format b.
Proof.
  unfold ResInfoCmp.
  destruct (Z.ltb_spec (Type_ a) (Type_ b)); [intuition lia|].
  destruct (Z.ltb_spec (dwWidth a) (dwWidth b)); [intuition lia|].
  destruct (Z.ltb_spec (dwHeight a) (dwHeight b)); [intuition lia|].
  destruct (Z.ltb_spec (Format a) (Format b)); [intuition lia|].
  split; [discriminate | lia].
Qed.

(** Neither key compares less than the other exactly when the four fields
    agree: a search of the pool can end only at a node of the shape
    searched for. *)
Lemma ResInfoCmp_equiv a b :
  ResInfoCmp a b = false /\ ResInfoCmp b a = false <-> shape a = shape b.
Proof.
  rewrite <- !not_true_iff_false, !ResInfoCmp_spec. unfold shape.
  split.
  - intros [Hab Hba]. f_equal; [f_equal; [f_equal|]|]; lia.
  - intros [= -> -> -> ->]. lia.
Qed.

(** C2: the comparator of the pool is not the lexicographic order on
    (Type, dwWidth, dwHeight, Format) and is not a strict order: for
    a = (Type 0, width 1) and b = (Type 1, width 0) both [ResInfoCmp a b]
    and [ResInfoCmp b a] hold, whereas lexicographically only a < b. *)
Theorem ResInfoCmp_not_lexicographic :
  let a := mkResInfo 0 1 0 0 MOS_MEMPOOL_VIDEOMEMORY in
  let b := mkResInfo 1 0 0 0 MOS_MEMPOOL_VIDEOMEMORY in
  ResInfoCmp a b = true /\ ResInfoCmp b a = true
  /\ ResInfo_lex_lt a b /\ ~ ResInfo_lex_lt b a.
Proof.
  cbv zeta. split; [reflexivity|]. split; [reflexivity|].
  unfold ResInfo_lex_lt; simpl. split; [lia|lia].
Qed.

(** ** Producers *)

Lemma produce_one s evs s' : produce1 s evs s' -> produce s evs s'.
Proof.
  intros H. rewrite <- (app_nil_r evs). eapply produce_cons; [exact H|].
  constructor.
Qed.

Lemma produce_trans s evs1 s1 evs2 s2 :
  produce s evs1 s1 -> produce s1 evs2 s2 -> produce s (evs1 ++ evs2) s2.
Proof.
  induction 1 as [|s evs0 s0 evs1 s1 H1 H IH]; intros H2; [exact H2|].
  rewrite <- app_assoc. eapply produce_cons; [exact H1|]. by apply IH.
Qed.

Lemma find_free_Some heap arr i :
  find_free heap arr = Some i ->
  i ∈ arr /\ exists r, heap !! i = Some r /\ occupied r = false.
Proof.
  induction arr as [|j arr IH]; simpl; [discriminate|].
  destruct (heap !! j) as [r|] eqn:Hj.
  - destruct (occupied r) eqn:Ho.
    + intros H. destruct (IH H) as [? ?]. split; [by right|done].
    + intros [= <-]. split; [by left|eauto].
  - intros H. destruct (IH H) as [? ?]. split; [by right|done].
Qed.

Lemma find_free_None heap arr :
  find_free heap arr = None <->
  forall i r, i ∈ arr -> heap !! i = Some r -> occupied r = true.
Proof.
  induction arr as [|j arr IH]; simpl.
  - split; [|done]. intros _ i r Hi. by apply elem_of_nil in Hi.
  - destruct (heap !! j) as [r|] eqn:Hj.
    + destruct (occupied r) eqn:Ho.
      * rewrite IH. split.
        -- intros H i r' [->|Hi]%elem_of_cons Hr; [congruence|eauto].
        -- intros H i r' Hi. apply H. by right.
      * split; [discriminate|]. intros H.
        specialize (H j r (list_elem_of_here _ _) Hj). congruence.
    + rewrite IH. split.
      * intros H i r' [->|Hi]%elem_of_cons Hr; [congruence|eauto].
      * intros H i r' Hi. apply H. by right.
Qed.

Lemma m_allocate_call_false s resInfo resSize b resInfo' s' evs :
  m_allocate_call s resInfo resSize b = (false, resInfo', s', evs) ->
  s' = s /\ evs = [].
Proof.
  unfold m_allocate_call.
  destruct (m_allocate s); repeat case_match; intros [= <- <-]; try done.
Qed.

Lemma m_allocate_call_true s resInfo resSize b resInfo' s' evs :
  m_allocate_call s resInfo resSize b = (true, resInfo', s', evs) ->
  b = true.
Proof.
  unfold m_allocate_call.
  destruct (m_allocate s), b; repeat case_match; intros [=]; done.
Qed.

Lemma stage_produce s i r nm dumpSize off resSize copy_ok s' evs :
  m_heap s !! i = Some r ->
  occupied r = false ->
  stage s i nm dumpSize off resSize copy_ok = (s', evs) ->
  produce s evs s'.
Proof.
  intros Hi Ho. unfold stage. destruct copy_ok; intros [= <- <-].
  - apply produce_one. by eapply produce_stage.
  - apply produce_one. constructor.
Qed.

Ltac destruct_stage H :=
  match goal with
  | |- context [stage ?s ?i ?a ?b ?c ?d ?e] =>
      destruct (stage s i a b c d e) as [? ?] eqn:H
  end.

(** [AddTask] is a sequence of elementary updates, whether it returns or
    suspends. *)
Lemma AddTask_produce s rq :
  match AddTask s rq with
  | Returned s' evs => produce s evs s'
  | Waiting s' _ => produce s [] s'
  end.
Proof.
  unfold AddTask.
  destruct (m_2CacheTask_call s (rq_elapsed rq)); cbn [negb]; [|constructor].
  destruct (rq_gmm rq) as [sz|]; [|apply produce_one; constructor].
  cbv zeta.
  destruct (_ <? _); [apply produce_one; constructor|].
  destruct (rq_details rq) as [[[w h] f]|]; [|apply produce_one; constructor].
  unfold AddTask_locked. cbv zeta.
  set (resInfo := mkResInfo _ _ _ _ _).
  set (b := (m_resPool_at s (shape resInfo) (rq_found rq)).2).
  set (s1 := (m_resPool_at s (shape resInfo) (rq_found rq)).1).
  set (arr := bucket s1 b).
  assert (H1 : produce s [] s1).
  { subst s1. unfold m_resPool_at. destruct (find_node _ _ _); simpl.
    - constructor.
    - apply produce_one. constructor. }
  destruct (find_free (m_heap s1) arr) as [i|] eqn:Hfree.
  - destruct (find_free_Some _ _ _ Hfree) as [_ (r & Hr & Ho)].
    destruct_stage Hst.
    apply (produce_trans _ [] s1); [done|]. by eapply stage_produce.
  - destruct (m_allocate_call s1 resInfo _ _) as [[[ok ri] sa] evs_a] eqn:Ha.
    destruct ok.
    + pose proof (m_allocate_call_true _ _ _ _ _ _ _ Ha) as Hb.
      rewrite Hb in Ha.
      destruct_stage Hst.
      apply (produce_trans _ [] s1); [done|].
      apply (produce_trans _ evs_a sa).
      { apply produce_one. eapply produce_allocate; [|exact Ha].
        apply SizeTFacts.wrap_ok. }
      apply (produce_trans _ [] (set_heap (m_heap sa ++ [mkRes false 0 0 ""]) sa)).
      { apply produce_one. constructor. }
      apply (produce_trans _ [] _ _ _
               (produce_one _ _ _
                  (produce_bucket _
                     (emplace_back b (length (m_heap sa)) (m_resPool sa))))).
      eapply stage_produce; [| |exact Hst]; simpl.
      * rewrite lookup_app_r; [|done]. by rewrite Nat.sub_diag.
      * done.
    + destruct (m_allocate_call_false _ _ _ _ _ _ _ Ha) as [-> ->].
      destruct (_ && _); [done|].
      apply (produce_trans _ [] s1); [done|]. apply produce_one. constructor.
Qed.

Lemma AddTask_resume_produce s w copy_ok s' evs :
  AddTask_resume s w copy_ok = Some (s', evs) -> produce s evs s'.
Proof.
  unfold AddTask_resume.
  destruct (find_free _ _) as [i|] eqn:Hfree; simpl; [|discriminate].
  destruct (find_free_Some _ _ _ Hfree) as [_ (r & Hr & Ho)].
  intros [= H]. by eapply stage_produce.
Qed.

(** ** The settings never change *)

Lemma produce1_settings s evs s' :
  produce1 s evs s' -> settings s' = settings s.
Proof.
  destruct 1 as [| |s ri n ri' s' evs _ H| |]; try reflexivity.
  unfold m_allocate_call in H.
  destruct (m_allocate s); repeat case_match; by simplify_eq.
Qed.

Lemma produce_settings s evs s' :
  produce s evs s' -> settings s' = settings s.
Proof.
  induction 1 as [|s evs1 s1 evs2 s2 H1 _ IH]; [done|].
  rewrite IH. by eapply produce1_settings.
Qed.


Lemma step_settings y evs y' :
  step y evs y' -> settings (shared y') = settings (shared y).
Proof.
  destruct 1 as [y rq s' evs H|y rq s' w H|y l1 w l2 c s' evs _ H| | | | |
                 |y l1 w l2 s' _ _ H|y lk s' evs _ _ H]; simpl; try done.
  - pose proof (AddTask_produce (shared y) rq) as HP. rewrite H in HP.
    by eapply produce_settings.
  - pose proof (AddTask_produce (shared y) rq) as HP. rewrite H in HP.
    by eapply produce_settings.
  - by eapply produce_settings, AddTask_resume_produce.
  - unfold worker_release in H. destruct (m_resQueue _); [done|].
    by injection H as <-.
  - unfold ScheduleTasks_drain in H. destruct (drain _ _ _).
    by injection H as <- <-.
Qed.

(** ** The budgets *)

Lemma allocated_app p tr1 tr2 :
  allocated p (tr1 ++ tr2) = allocated p tr1 + allocated p tr2.
Proof.
  unfold allocated. induction tr1 as [|e tr1 IH]; simpl; [done|].
  rewrite IH. lia.
Qed.

Lemma budget_inv_frame tr evs s s' :
  budget_inv tr s ->
  (forall p, allocated p evs = 0) ->
  m_memMng1st s' = m_memMng1st s -> m_memMng2nd s' = m_memMng2nd s ->
  m_allocate s' = m_allocate s ->
  budget_inv (tr ++ evs) s'.
Proof.
  intros [] H0 H1 H2 H3.
  constructor; rewrite ?allocated_app, ?H0, ?H1, ?H2, ?H3, ?Z.add_0_r; try done.
  intros p. by rewrite allocated_app, H0, Z.add_0_r.
Qed.

Lemma budget_inv_usage_ok tr s :
  budget_inv tr s ->
  SizeT.ok (usage (m_memMng1st s)) /\ SizeT.ok (usage (m_memMng2nd s)).
Proof.
  intros []. rewrite budget_usage3, budget_usage4.
  split; apply SizeTFacts.wrap_ok.
Qed.

Ltac budget_step :=
  try done;
  try congruence;
  try lia;
  try match goal with
      | B : usage ?m = SizeT.wrap _ |- SizeT.add (usage ?m) _ = _ =>
          rewrite B; by rewrite SizeTFacts.add_wrap_l
      | B : forall p, 0 <= allocated p ?tr |- forall p, 0 <= _ =>
          let p := fresh "p" in
          intros p; specialize (B p); rewrite ?allocated_app; simpl;
          case_decide; lia
      end.

Lemma produce1_budget tr s evs s' :
  policy (m_memMng1st s) = MOS_MEMPOOL_SYSTEMMEMORY ->
  policy (m_memMng2nd s) = MOS_MEMPOOL_VIDEOMEMORY ->
  budget_inv tr s -> produce1 s evs s' -> budget_inv (tr ++ evs) s'.
Proof.
  intros Hp1 Hp2 HB H. revert Hp1 Hp2 HB.
  destruct H as [s nm err|s pool|s ri n ri' s' evs Hn H|s|s i r nm off sz];
    intros Hp1 Hp2 HB;
    try (by apply (budget_inv_frame _ _ s)).
  destruct (budget_inv_usage_ok _ _ HB) as [Hu1 Hu2].
  destruct HB as [B1 B2 B3 B4 B5 B6].
  assert (Hn0 : 0 <= n) by apply Hn.
  unfold m_allocate_call in H. rewrite Hp1, Hp2 in H.
  destruct (m_allocate s) eqn:Hm.
  - destruct (Z.ltb_spec (cap (m_memMng1st s))
                (SizeT.add (usage (m_memMng1st s)) n)) as [Ho1|Ho1];
    destruct (Z.ltb_spec (cap (m_memMng2nd s))
                (SizeT.add (usage (m_memMng2nd s)) n)) as [Ho2|Ho2];
    simpl in H; try discriminate;
    injection H as <- <- <-;
    constructor; simpl; rewrite ?allocated_app; simpl;
    rewrite ?Z.add_0_r, ?SizeTFacts.add_0_r by done;
    budget_step.
  - destruct (Z.ltb_spec (cap (m_memMng1st s))
                (SizeT.add (usage (m_memMng1st s)) n)) as [Ho1|Ho1];
      [discriminate|].
    injection H as <- <- <-.
    constructor; simpl; rewrite ?allocated_app; simpl;
      rewrite ?Z.add_0_r; budget_step.
    intros _. by rewrite B6.
Qed.

Lemma produce_budget tr s evs s' :
  policy (m_memMng1st s) = MOS_MEMPOOL_SYSTEMMEMORY ->
  policy (m_memMng2nd s) = MOS_MEMPOOL_VIDEOMEMORY ->
  budget_inv tr s -> produce s evs s' -> budget_inv (tr ++ evs) s'.
Proof.
  intros Hp1 Hp2 HB H. revert tr Hp1 Hp2 HB.
  induction H as [|s evs1 s1 evs2 s2 H1 _ IH]; intros tr Hp1 Hp2 HB.
  - by rewrite app_nil_r.
  - rewrite app_assoc.
    pose proof (produce1_settings _ _ _ H1) as Hs. unfold settings in Hs.
    apply IH; [congruence|congruence|]. by eapply produce1_budget.
Qed.

(** ** The queue and the occupied buffers *)

Lemma jobs_cons heap i q :
  jobs heap (i :: q)
  = match job_of heap i with
    | Some j => j :: jobs heap q
    | None => jobs heap q
    end.
Proof. reflexivity. Qed.

Lemma jobs_ext heap heap' q :
  (forall i, i ∈ q -> job_of heap' i = job_of heap i) ->
  jobs heap' q = jobs heap q.
Proof.
  induction q as [|i q IH]; intros H; [done|].
  rewrite !jobs_cons, (H i) by left. rewrite IH; [done|].
  intros j Hj. apply H. by right.
Qed.

Lemma jobs_app heap q1 q2 : jobs heap (q1 ++ q2) = jobs heap q1 ++ jobs heap q2.
Proof. apply omap_app. Qed.

Lemma enqueues_app tr1 tr2 : enqueues (tr1 ++ tr2) = enqueues tr1 ++ enqueues tr2.
Proof. apply omap_app. Qed.

Lemma dumps_app tr1 tr2 : dumps (tr1 ++ tr2) = dumps tr1 ++ dumps tr2.
Proof. apply omap_app. Qed.

Lemma job_of_free_buffer heap i j :
  job_of (free_buffer heap i) j = job_of heap j.
Proof.
  unfold free_buffer, job_of.
  destruct (heap !! i) as [r|] eqn:Hi; [|done].
  destruct (decide (i = j)) as [<-|Hne].
  - rewrite list_lookup_insert_eq by (by eapply lookup_lt_Some).
    by rewrite Hi.
  - by rewrite list_lookup_insert_ne.
Qed.

Lemma heap_ok_lookup s i :
  heap_ok s -> i ∈ m_resQueue s -> (i < length (m_heap s))%nat.
Proof.
  intros [_ H] Hi. apply H in Hi as (r & Hr & _). by eapply lookup_lt_Some.
Qed.

(** An elementary update keeps the occupied buffers and the queue in
    step, and only ever appends to the queue. *)
Ltac same_queue :=
  split; [done|]; split; [done|]; split; [done|]; split; [done|];
  exists []; rewrite app_nil_r; split; [done|];
  intros ? _; by rewrite !app_nil_r.

Lemma produce1_queue s evs s' :
  heap_ok s -> produce1 s evs s' ->
  heap_ok s'
  /\ m_ready4Dump s' = m_ready4Dump s
  /\ m_stopScheduler s' = m_stopScheduler s
  /\ dumps evs = []
  /\ exists new,
       m_resQueue s' = m_resQueue s ++ new
       /\ forall q0, q0 ⊆ m_resQueue s ->
            jobs (m_heap s') (q0 ++ new) = jobs (m_heap s) q0 ++ enqueues evs.
Proof.
  intros Hok H. revert Hok.
  destruct H as [s nm err|s pool|s ri n ri' s' evs Hn H|s|s i r nm off sz Hi Ho];
    intros Hok.
  - same_queue.
  - same_queue.
  - assert (m_heap s' = m_heap s /\ m_resQueue s' = m_resQueue s
            /\ m_ready4Dump s' = m_ready4Dump s
            /\ m_stopScheduler s' = m_stopScheduler s
            /\ enqueues evs = [] /\ dumps evs = []) as (Eh & Eq & Er & Es & Ee & Ed).
    { unfold m_allocate_call in H.
      destruct (m_allocate s); repeat case_match; by simplify_eq. }
    unfold heap_ok. rewrite Eh, Eq, Ee. same_queue.
  - split; [|split; [done|]; split; [done|]; split; [done|]].
    + destruct Hok as [Hnd Hocc]. split; [done|]. simpl. intros i.
      rewrite Hocc. split; intros (r & Hr & Ho).
      * exists r. split; [|done]. rewrite lookup_app_l; [done|].
        by eapply lookup_lt_Some.
      * destruct (decide (i < length (m_heap s))%nat) as [Hlt|Hge].
        -- rewrite lookup_app_l in Hr by done. eauto.
        -- rewrite lookup_app_r in Hr by lia.
           destruct (i - length (m_heap s))%nat; simpl in Hr; [|done].
           by simplify_eq.
    + exists []. simpl. rewrite app_nil_r. split; [done|].
      intros q0 Hq0. rewrite !app_nil_r. apply jobs_ext. intros i Hin.
      unfold job_of. rewrite lookup_app_l; [done|].
      apply heap_ok_lookup; [done|]. by apply Hq0.
  - assert (Hnotin : i ∉ m_resQueue s).
    { destruct Hok as [_ Hocc]. rewrite Hocc. intros (r' & Hr' & Ho').
      congruence. }
    assert (Hlt : (i < length (m_heap s))%nat) by (by eapply lookup_lt_Some).
    split; [|split; [done|]; split; [done|]; split; [done|]].
    + destruct Hok as [Hnd Hocc]. split; simpl.
      * apply NoDup_app. split; [done|]. split; [|apply NoDup_singleton].
        intros x Hx ->%list_elem_of_singleton. done.
      * intros j. rewrite elem_of_app, list_elem_of_singleton, Hocc.
        destruct (decide (i = j)) as [<-|Hne].
        -- rewrite list_lookup_insert_eq by done. split; [eauto|]. by right.
        -- rewrite list_lookup_insert_ne by done. split; [|by left].
           intros [?|?]; [done|congruence].
    + exists [i]. simpl. split; [done|]. intros q0 Hq0.
      rewrite jobs_app. f_equal.
      * apply jobs_ext. intros j Hj. unfold job_of.
        rewrite list_lookup_insert_ne; [done|]. intros ->. apply Hnotin.
        by apply Hq0.
      * unfold jobs, job_of. simpl. by rewrite list_lookup_insert_eq.
Qed.

Lemma produce_queue s evs s' :
  heap_ok s -> produce s evs s' ->
  heap_ok s'
  /\ m_ready4Dump s' = m_ready4Dump s
  /\ m_stopScheduler s' = m_stopScheduler s
  /\ dumps evs = []
  /\ exists new,
       m_resQueue s' = m_resQueue s ++ new
       /\ forall q0, q0 ⊆ m_resQueue s ->
            jobs (m_heap s') (q0 ++ new) = jobs (m_heap s) q0 ++ enqueues evs.
Proof.
  intros Hok H. revert Hok.
  induction H as [|s evs1 s1 evs2 s2 H1 _ IH]; intros Hok.
  - same_queue.
  - destruct (produce1_queue _ _ _ Hok H1)
      as (Hok1 & Hr1 & Hs1 & Hd1 & new1 & Hq1 & Hj1).
    destruct (IH Hok1) as (Hok2 & Hr2 & Hs2 & Hd2 & new2 & Hq2 & Hj2).
    split; [done|]. split; [congruence|]. split; [congruence|].
    split; [by rewrite dumps_app, Hd1, Hd2|].
    exists (new1 ++ new2). split; [by rewrite Hq2, Hq1, app_assoc|].
    intros q0 Hq0. rewrite enqueues_app, !app_assoc, <- Hj1 by done.
    apply Hj2. rewrite Hq1. intros x [?|?]%elem_of_app; apply elem_of_app;
      [left; by apply Hq0|by right].
Qed.

Lemma DoDump_events heap i lock_ok j :
  job_of heap i = Some j ->
  dumps (DoDump heap i lock_ok) = [j]
  /\ enqueues (DoDump heap i lock_ok) = []
  /\ forall p, allocated p (DoDump heap i lock_ok) = 0.
Proof.
  intros Hj. unfold DoDump. rewrite Hj. by destruct lock_ok.
Qed.

Lemma job_of_is_Some heap i :
  (i < length heap)%nat -> exists j, job_of heap i = Some j /\ job_buf j = i.
Proof.
  intros [r Hr]%lookup_lt_is_Some. unfold job_of. rewrite Hr. simpl. eauto.
Qed.

Lemma jobs_length heap q :
  (forall i, i ∈ q -> (i < length heap)%nat) ->
  length (jobs heap q) = length q /\ job_buf <$> jobs heap q = q.
Proof.
  induction q as [|i q IH]; intros H; [done|].
  rewrite jobs_cons.
  destruct (job_of_is_Some heap i) as (j & -> & Hb); [apply H; by left|].
  destruct IH as [IH1 IH2]; [intros k Hk; apply H; by right|].
  split; [simpl; by rewrite IH1|]. by rewrite fmap_cons, IH2, Hb.
Qed.

Lemma free_buffer_length heap i : length (free_buffer heap i) = length heap.
Proof.
  unfold free_buffer. destruct (heap !! i); [by rewrite length_insert|done].
Qed.

Lemma free_buffer_lookup heap i j r :
  free_buffer heap i !! j = Some r -> occupied r = true ->
  j <> i /\ heap !! j = Some r.
Proof.
  unfold free_buffer. destruct (heap !! i) as [ri|] eqn:Hi.
  - destruct (decide (i = j)) as [<-|Hne].
    + rewrite list_lookup_insert_eq by (by eapply lookup_lt_Some).
      intros [= <-]. done.
    + rewrite list_lookup_insert_ne by done. done.
  - intros Hj Ho. split; [|done]. intros ->. congruence.
Qed.

Lemma free_buffer_lookup_ne heap i j :
  i <> j -> free_buffer heap i !! j = heap !! j.
Proof.
  intros Hne. unfold free_buffer. destruct (heap !! i); [|done].
  by rewrite list_lookup_insert_ne.
Qed.

(** The final loop runs [DoDump] for every queued job, in queue order, and
    leaves every one of their buffers free. *)
Lemma drain_spec q : forall heap lock_ok heap' evs,
  (forall i, i ∈ q -> (i < length heap)%nat) ->
  drain q heap lock_ok = (heap', evs) ->
  dumps evs = jobs heap q
  /\ enqueues evs = []
  /\ (forall p, allocated p evs = 0)
  /\ forall j r, heap' !! j = Some r -> occupied r = true ->
       (j ∉ q) /\ heap !! j = Some r.
Proof.
  induction q as [|i q IH]; intros heap lock_ok heap' evs Hlt Hdr;
    simpl in Hdr.
  - injection Hdr as <- <-. repeat split; try done. apply not_elem_of_nil.
  - destruct (drain q _ lock_ok) as [h e] eqn:Hd. injection Hdr as <- <-.
    destruct (job_of_is_Some heap i) as (j & Hj & _); [apply Hlt; by left|].
    destruct (DoDump_events heap i (lock_ok i) j Hj) as (D1 & D2 & D3).
    destruct (IH _ _ _ _ (fun k Hk => eq_ind_r (fun n => (k < n)%nat)
                (Hlt k (list_elem_of_further _ _ _ Hk))
                (free_buffer_length heap i)) Hd)
      as (I1 & I2 & I3 & I4).
    split; [|split; [|split]].
    + rewrite dumps_app, D1, I1, jobs_cons, Hj. simpl. f_equal.
      apply jobs_ext. intros k _. apply job_of_free_buffer.
    + by rewrite enqueues_app, D2, I2.
    + intros p. by rewrite allocated_app, D3, I3.
    + intros k r Hk Ho. destruct (I4 k r Hk Ho) as [Hnq Hf].
      destruct (free_buffer_lookup _ _ _ _ Hf Ho) as [Hne Hh].
      split; [|done]. rewrite elem_of_cons. intros [?|?]; done.
Qed.

(** ** The invariant of the running pipeline *)

Lemma init_policies cfg adapter :
  policy (m_memMng1st (init cfg adapter)) = MOS_MEMPOOL_SYSTEMMEMORY
  /\ policy (m_memMng2nd (init cfg adapter)) = MOS_MEMPOOL_VIDEOMEMORY.
Proof. done. Qed.

Lemma Inv_policies cfg adapter tr y :
  Inv (init cfg adapter) tr y ->
  policy (m_memMng1st (shared y)) = MOS_MEMPOOL_SYSTEMMEMORY
  /\ policy (m_memMng2nd (shared y)) = MOS_MEMPOOL_VIDEOMEMORY.
Proof.
  intros [Hs _ _ _ _ _ _ _]. unfold settings in Hs.
  split; by simplify_eq.
Qed.

Lemma Inv_workers s0 tr y :
  Inv s0 tr y -> workers y = [] \/ exists w, workers y = [w].
Proof.
  intros [_ _ _ H _ _ _ _]. destruct (workers y) as [|w [|w' ws]]; simpl in H;
    [by left|right; eauto|lia].
Qed.

Lemma Inv_produce cfg adapter tr y evs s' ws :
  Inv (init cfg adapter) tr y ->
  produce (shared y) evs s' ->
  Inv (init cfg adapter) (tr ++ evs)
    (mkSys s' ws (workers y) (launched y) (sched y)).
Proof.
  intros HI HP. destruct (Inv_policies _ _ _ _ HI) as [Hp1 Hp2].
  destruct (Inv_workers _ _ _ HI) as [Hw|[w Hw]].
  all: destruct HI as [Hs Hb Hh H1 Hr Hf Hd Hq Hl].
  all: destruct (produce_queue _ _ _ Hh HP) as (Hh' & Er & Es & Ed & new & Eq & Ej).
  all: constructor; simpl.
  all: try (rewrite (produce_settings _ _ _ HP); done).
  all: try (by eapply produce_budget).
  all: try done.
  all: try (by rewrite Er).
  all: try (intros qf Hsc; destruct (Hl qf Hsc) as [Hwl Hhd];
            split; [done|]; by rewrite Eq, head_app, Hhd).
  - rewrite Hw. intros w' Hw'. by apply elem_of_nil in Hw'.
  - rewrite enqueues_app, dumps_app, Ed, app_nil_r, Hq, <- app_assoc.
    f_equal. unfold pending in *. simpl. rewrite Hw. rewrite Eq. symmetry.
    by apply Ej.
  - intros w' Hw'. destruct (Hf w' Hw') as [Hhd Hl']. split; [|done].
    rewrite Eq, head_app, Hhd. done.
  - rewrite enqueues_app, dumps_app, Ed, app_nil_r, Hq, <- app_assoc.
    f_equal. unfold pending in *. simpl. rewrite Hw.
    destruct (Hf w) as [Hhd _]; [rewrite Hw; by left|].
    destruct (m_resQueue (shared y)) as [|i q] eqn:Hqe; [done|].
    rewrite Eq. destruct (wk_dumped w); simpl; symmetry.
    + apply Ej. intros x Hx. by right.
    + by apply (Ej (i :: q)).
Qed.

Lemma percent_of_ok mem percent : SizeT.ok (percent_of mem percent).
Proof. apply SizeTFacts.mul_ok. Qed.

Lemma Inv_start cfg adapter : Inv (init cfg adapter) [] (start cfg adapter).
Proof.
  constructor; simpl; try done; try lia.
  - constructor; simpl; try done.
    + destruct adapter as [a|]; simpl.
      * pose proof (percent_of_ok (SystemSharedMemory a)
                      (SizeT.wrap (from_option maxPercentSharedMem 75 cfg)))
          as [H _].
        case_match; [done|lia].
      * done.
    + destruct adapter as [a|]; [|done]. apply percent_of_ok.
  - split; [constructor|]. intros i. rewrite elem_of_nil.
    split; [done|]. by intros (r & Hr & _).
  - intros w Hw. by apply elem_of_nil in Hw.
Qed.

Lemma singleton_split {A} (l1 l2 : list A) (w x : A) :
  [x] = l1 ++ w :: l2 -> l1 = [] /\ w = x /\ l2 = [].
Proof.
  destruct l1 as [|a l1]; simpl.
  - by intros [= -> <-].
  - intros [= _ H]. by destruct l1.
Qed.

Lemma Inv_step cfg adapter tr y evs y' :
  Inv (init cfg adapter) tr y -> step y evs y' ->
  Inv (init cfg adapter) (tr ++ evs) y'.
Proof.
  intros HI Hstep.
  destruct Hstep as [y rq s' evs H|y rq s' w H|y l1 w l2 c s' evs Hws H|y
                    |y Hsc Hstop|y qf q Hsc Hstop Hrdy Hq|y qf Hsc
                    |y l1 w l2 lk Hws Hd|y l1 w l2 s' Hws Hd H
                    |y lk s' evs Hsc Hfut H].
  - pose proof (AddTask_produce (shared y) rq) as HP. rewrite H in HP.
    by apply Inv_produce.
  - pose proof (AddTask_produce (shared y) rq) as HP. rewrite H in HP.
    by apply Inv_produce.
  - apply Inv_produce; [done|]. by eapply AddTask_resume_produce.
  - rewrite app_nil_r. destruct HI as [? [] ? ? ? ? ? ? ?].
    constructor; try done.
  - rewrite app_nil_r. destruct HI as [Hs [] Hh H1 Hr Hf Hdn Hfifo Hl].
    constructor; simpl; try done.
    rewrite Hr, Hsc. split; intros [? _]; (split; done).
  - rewrite app_nil_r. destruct HI as [Hs [] Hh H1 Hr Hf Hdn Hfifo Hl].
    destruct (proj1 Hr Hrdy) as [Hw _].
    constructor; simpl; try done.
    + split; [done|]. intros [_ Hn]. by destruct (Hn qf).
    + intros qf' [= <-]. split; [done|]. by rewrite Hq.
  - rewrite app_nil_r. destruct HI as [Hs [] Hh H1 Hr Hf Hdn Hfifo Hl].
    destruct (Hl qf Hsc) as [Hw Hhd].
    assert (Hnr : m_ready4Dump (shared y) = false).
    { destruct (m_ready4Dump (shared y)) eqn:E; [|done].
      destruct (proj1 Hr eq_refl) as [_ E']. by destruct (E' qf). }
    unfold pending in Hfifo. rewrite Hw in Hfifo.
    constructor; simpl; rewrite ?Hw; try done.
    + rewrite Hnr. split; [done|]. by intros [? _].
    + intros w [->|Hw']%elem_of_cons; [|by apply elem_of_nil in Hw'].
      done.
  - destruct (Inv_workers _ _ _ HI) as [Hw|[w0 Hw]];
      rewrite Hw in Hws; [by destruct l1|].
    apply singleton_split in Hws as (-> & <- & ->).
    destruct HI as [Hs Hb Hh H1 Hr Hf Hdn Hfifo Hln].
    destruct (Hf w) as [Hhd Hl]; [rewrite Hw; by left|].
    destruct (m_resQueue (shared y)) as [|i q] eqn:Hq; [done|].
    injection Hhd as ->.
    destruct (job_of_is_Some (m_heap (shared y)) (wk_job w)) as (j & Hj & _).
    { apply heap_ok_lookup; [done|]. rewrite Hq. by left. }
    destruct (DoDump_events _ _ lk _ Hj) as (D1 & D2 & D3).
    unfold pending in Hfifo. rewrite Hw, Hd, Hq, jobs_cons, Hj in Hfifo.
    constructor; simpl; try done.
    + by apply (budget_inv_frame _ _ (shared y)).
    + rewrite Hr, Hw. split; intros [? _]; done.
    + intros w' [->|Hw']%elem_of_cons; [|by apply elem_of_nil in Hw'].
      simpl. by rewrite Hq.
    + intros Hdone. specialize (Hdn Hdone). by rewrite Hw in Hdn.
    + rewrite enqueues_app, dumps_app, D1, D2, app_nil_r, Hfifo.
      unfold pending; simpl. rewrite Hq. simpl. by rewrite <- app_assoc.
    + intros qf Hsc. destruct (Hln qf Hsc) as [Hw0 _]. by rewrite Hw in Hw0.
  - destruct (Inv_workers _ _ _ HI) as [Hw|[w0 Hw]];
      rewrite Hw in Hws; [by destruct l1|].
    apply singleton_split in Hws as (-> & <- & ->).
    destruct HI as [Hs Hb Hh H1 Hr Hf Hdn Hfifo Hln].
    assert (Hnl : forall qf, sched y <> SchedLaunch qf).
    { intros qf Hsc. destruct (Hln qf Hsc) as [Hw0 _]. by rewrite Hw in Hw0. }
    unfold worker_release in H.
    destruct (m_resQueue (shared y)) as [|i q] eqn:Hq; [done|].
    injection H as <-. rewrite app_nil_r.
    unfold pending in Hfifo. rewrite Hw, Hd, Hq in Hfifo. simpl in Hfifo.
    destruct Hh as [Hnd Hocc]. rewrite Hq in Hnd, Hocc.
    apply NoDup_cons in Hnd as [Hni Hnd].
    constructor; simpl; try done.
    all: try (intros qf Hsc; by destruct (Hnl qf)).
    + by destruct Hb.
    + unfold heap_ok; simpl. split; [done|]. intros k. split.
      * intros Hk. destruct (proj1 (Hocc k)) as (r & Hr' & Ho); [by right|].
        exists r. split; [|done]. rewrite free_buffer_lookup_ne; [done|].
        intros ->. done.
      * intros (r & Hr' & Ho).
        destruct (free_buffer_lookup _ _ _ _ Hr' Ho) as [Hne Hh].
        assert (Hk : k ∈ i :: q) by (apply Hocc; eauto).
        apply elem_of_cons in Hk as [->|Hk]; done.
    + lia.
    + intros w' Hw'. by apply elem_of_nil in Hw'.
    + rewrite Hfifo. f_equal. unfold pending; simpl. symmetry.
      apply jobs_ext. intros k _. apply job_of_free_buffer.
  - assert (Hw : workers y = []).
    { destruct (Inv_workers _ _ _ HI) as [Hw|[w Hw]]; [done|].
      destruct HI as [_ _ _ _ _ Hf _ _ _].
      destruct (Hf w) as [_ Hl]; [rewrite Hw; by left|].
      destruct (Hfut w); [rewrite Hw; by left|done]. }
    destruct HI as [Hs Hb Hh H1 Hr Hf Hdn Hfifo Hln].
    unfold ScheduleTasks_drain in H.
    destruct (drain _ _ lk) as [heap' evs'] eqn:Hdr. injection H as <- <-.
    destruct (drain_spec _ _ _ _ _
                (fun i Hi => heap_ok_lookup _ _ Hh Hi) Hdr)
      as (D1 & D2 & D3 & D4).
    unfold pending in Hfifo. rewrite Hw in Hfifo.
    constructor; simpl; try done.
    + by apply (budget_inv_frame _ _ (shared y)).
    + unfold heap_ok; simpl. split; [constructor|]. intros i.
      rewrite elem_of_nil. split; [done|].
      intros (r & Hr' & Ho). destruct (D4 i r Hr' Ho) as [Hni Hh'].
      apply Hni. apply Hh. eauto.
    + rewrite Hr, Hsc. split; intros [? _]; (split; done).
    + rewrite Hw. intros w Hw'. by apply elem_of_nil in Hw'.
    + rewrite enqueues_app, dumps_app, D1, D2, app_nil_r, Hfifo.
      unfold pending; simpl. rewrite Hw. by rewrite app_nil_r.
Qed.

Lemma reachable_Inv cfg adapter tr y :
  reachable cfg adapter tr y -> Inv (init cfg adapter) tr y.
Proof.
  unfold reachable. intros H.
  remember (start cfg adapter) as y0 eqn:Hy0.
  induction H as [y|y tr y1 evs y2 _ IH Hstep]; subst.
  - apply Inv_start.
  - eapply Inv_step; [by apply IH|done].
Qed.

Lemma reachable_settings cfg adapter tr y :
  reachable cfg adapter tr y ->
  let s := shared y in
  let s0 := init cfg adapter in
  m_allowDataLoss s = m_allowDataLoss s0
  /\ cap (m_memMng1st s) = cap (m_memMng1st s0)
  /\ cap (m_memMng2nd s) = cap (m_memMng2nd s0)
  /\ m_samplingTime s = m_samplingTime s0
  /\ m_samplingInterval s = m_samplingInterval s0
  /\ m_2CacheTask s = m_2CacheTask s0
  /\ m_allocate s = m_allocate s0
  /\ m_write s = m_write s0
  /\ m_writeError s = m_writeError s0.
Proof.
  intros H. destruct (reachable_Inv _ _ _ _ H) as [Hs _ _ _ _ _ _ _].
  unfold settings in Hs. cbv zeta. by simplify_eq.
Qed.

(** * The claims *)

(** ** Tier capacities *)

Lemma percent_of_exact mem percent :
  SizeT.ok mem -> 0 <= percent <= 100 ->
  percent_of mem percent = mem / 100 * percent.
Proof.
  intros Hm Hp. unfold percent_of. rewrite (SizeTFacts.wrap_small mem Hm).
  destruct Hm as [Hm0 Hm1].
  assert (0 <= mem / 100) by (apply Z.div_pos; lia).
  assert (100 * (mem / 100) <= mem) by (apply Z.mul_div_le; lia).
  apply SizeTFacts.mul_exact; [done|lia|nia].
Qed.

(** C3, the claim as stated fails: with the adapter query failed and 75
    percent configured, the capacity of tier 1 is nevertheless the largest
    [size_t], that is unbounded; and for a shared memory of 199 bytes and
    75 percent the capacity is 199 / 100 * 75 = 75, not
    199 * 75 / 100 = 149. *)
Lemma tier_capacity_counterexample :
  let cfg := mkConfig true false true true 75 0 0 0 in
  cap (m_memMng1st (init (Some cfg) None)) = SizeT.max
  /\ (forall u n,
        SizeT.add u n <= cap (m_memMng1st (init (Some cfg) None)))
  /\ cap (m_memMng1st (init (Some cfg) (Some (mkAdapterInfo 199 0)))) = 75
  /\ spec_capacity 199 75 = 149.
Proof.
  cbv zeta. split; [reflexivity|]. split; [|split; reflexivity].
  intros u n. apply SizeTFacts.add_ok.
Qed.

(** C3 (amended): the capacity a tier is given is the platform memory size
    divided by 100, then multiplied by the configured percentage, and 0
    when the adapter query fails. Whenever that value is 0 for tier 1,
    whatever the reason, tier 1 is unbounded: its capacity is the largest
    [size_t] and its budget check refuses no request. When it is 0 for
    tier 2, tier 2 is never used for allocation. *)
Theorem tier_capacities cfg adapter :
  let s := init cfg adapter in
  let percent1 := SizeT.wrap (from_option maxPercentSharedMem 75 cfg) in
  let percent2 := SizeT.wrap (from_option maxPercentLocalMem 0 cfg) in
  let computed1 :=
    match adapter with
    | Some a => percent_of (SystemSharedMemory a) percent1
    | None => 0
    end in
  let computed2 :=
    match adapter with
    | Some a => percent_of (DedicatedVideoMemory a) percent2
    | None => 0
    end in
  (forall mem percent,
     SizeT.ok mem -> 0 <= percent <= 100 ->
     percent_of mem percent = mem / 100 * percent)
  /\ cap (m_memMng2nd s) = computed2
  /\ cap (m_memMng1st s) = (if computed1 =? 0 then SizeT.max else computed1)
  /\ (computed1 = 0 ->
      forall tr y, reachable cfg adapter tr y ->
        cap (m_memMng1st (shared y)) = SizeT.max
        /\ forall n,
             SizeT.add (usage (m_memMng1st (shared y))) n
             <= cap (m_memMng1st (shared y)))
  /\ (computed2 = 0 ->
      forall tr y, reachable cfg adapter tr y ->
        m_allocate (shared y) = AllocateOneTier
        /\ allocated MOS_MEMPOOL_VIDEOMEMORY tr = 0
        /\ usage (m_memMng2nd (shared y)) = 0).
Proof.
  cbv zeta. split; [apply percent_of_exact|].
  split; [reflexivity|]. split; [reflexivity|]. split.
  - intros H0 tr y Hr.
    destruct (reachable_settings _ _ _ _ Hr) as (_ & Hc & _).
    simpl in Hc. rewrite H0 in Hc. simpl in Hc.
    split; [done|]. intros n. rewrite Hc. apply SizeTFacts.add_ok.
  - intros H0 tr y Hr.
    destruct (reachable_settings _ _ _ _ Hr) as (_ & _ & _ & _ & _ & _ & Hm & _).
    simpl in Hm. rewrite H0 in Hm. simpl in Hm.
    destruct (reachable_Inv _ _ _ _ Hr) as [_ [_ B2 _ _ _ B6] _ _ _ _ _ _].
    split; [done|]. specialize (B6 Hm). split; [done|].
    by rewrite B2, B6.
Qed.

Lemma tier_capacities_witness :
  percent_of 1000 75 = 1000 / 100 * 75
  /\ (forall tr y, reachable None None tr y ->
        cap (m_memMng1st (shared y)) = SizeT.max
        /\ forall n,
             SizeT.add (usage (m_memMng1st (shared y))) n
             <= cap (m_memMng1st (shared y)))
  /\ (forall tr y, reachable None None tr y ->
        m_allocate (shared y) = AllocateOneTier
        /\ allocated MOS_MEMPOOL_VIDEOMEMORY tr = 0
        /\ usage (m_memMng2nd (shared y)) = 0).
Proof.
  destruct (tier_capacities None None) as (H1 & _ & _ & H4 & H5).
  split; [apply H1; [unfold SizeT.ok, SizeT.max, SizeT.modulus|]; lia|].
  split; [apply H4; reflexivity|apply H5; reflexivity].
Defined.

(** ** The error reporter *)

(** C10, the claim as stated fails: the marker written for label "frame"
    and tag "discarded" under the default configuration is named
    "frame.discarded" but its payload is [sizeof(dummy)] = 1 byte long,
    not 0. *)
Lemma error_marker_counterexample :
  m_writeError_call (init None None) "frame" "discarded"
  = [SinkFile "frame.discarded" DataDummy 1]
  /\ ~ Forall (fun k => sink_size k = 0)
         (m_writeError_call (init None None) "frame" "discarded").
Proof.
  split; [reflexivity|]. intros H. apply Forall_cons in H as [H _].
  discriminate H.
Qed.

(** C10 (amended): for every failed request with label L and error tag E,
    the enabled error reporter persists, through the configured write
    strategy (to the file sink when [write2File], to the trace sink when
    [write2Trace]), a marker named exactly L + "." + E whose payload is the
    one static byte [dummy]: its size is 1 byte. *)
Theorem error_marker cfg adapter tr y L E :
  reachable cfg adapter tr y ->
  from_option informOnError true cfg = true ->
  let marker := L +:+ "." +:+ E in
  m_writeError_call (shared y) L E
  = m_write_call (m_write (shared y)) marker DataDummy 1
  /\ m_writeError_call (shared y) L E
     = (if from_option write2File true cfg
        then [SinkFile marker DataDummy 1] else [])
       ++ (if from_option write2Trace false cfg
           then [SinkTrace marker DataDummy 1] else [])
  /\ Forall (fun k => sink_name k = marker /\ sink_size k = 1
                      /\ sink_data k = DataDummy)
       (m_writeError_call (shared y) L E).
Proof.
  intros Hr Hinf.
  destruct (reachable_settings _ _ _ _ Hr)
    as (_ & _ & _ & _ & _ & _ & _ & Hw & He).
  simpl in Hw, He. rewrite Hinf in He.
  cbv zeta. unfold m_writeError_call. rewrite He, Hw.
  destruct (from_option write2File true cfg),
    (from_option write2Trace false cfg); simpl;
    repeat split; repeat constructor.
Qed.

Lemma error_marker_witness :
  m_writeError_call (init None None) "frame" "lock_failed"
  = [SinkFile "frame.lock_failed" DataDummy 1].
Proof.
  destruct (error_marker None None [] (start None None) "frame" "lock_failed")
    as (_ & H & _); [constructor|reflexivity|exact H].
Defined.

(** ** The sampling gate *)

Lemma m_2CacheTask_call_spec s elapsed :
  m_2CacheTask s
  = (if SizeT.add (m_samplingTime s) (m_samplingInterval s) =? 0
     then CacheAlways else CacheSampling) ->
  m_2CacheTask_call s elapsed
  = if SizeT.add (m_samplingTime s) (m_samplingInterval s) =? 0 then true
    else elapsed mod SizeT.add (m_samplingTime s) (m_samplingInterval s)
         <=? m_samplingTime s.
Proof.
  intros H. unfold m_2CacheTask_call. rewrite H. by destruct (_ =? 0).
Qed.

(** C4, the claim as stated fails: with samplingTime = 10 ms and
    samplingInterval = 2^64 - 5 ms the durations are not both zero and
    11 mod (samplingTime + samplingInterval) = 11 exceeds samplingTime, yet
    the call at 11 ms is let through: the code forms the sum in [size_t],
    where it is 5, and 11 mod 5 = 1. *)
Lemma sampling_gate_counterexample :
  let active := 10 in
  let idle := SizeT.modulus - 5 in
  let cfg := Some (mkConfig true false true true 75 0 active idle) in
  SizeT.ok active /\ SizeT.ok idle
  /\ ~ (active = 0 /\ idle = 0)
  /\ ~ (11 mod (active + idle) <= active)
  /\ m_2CacheTask_call (init cfg None) 11 = true.
Proof.
  cbv zeta. unfold SizeT.ok, SizeT.max, SizeT.modulus.
  split; [lia|]. split; [lia|]. split; [lia|]. split.
  - rewrite Z.mod_small by lia. lia.
  - vm_compute. reflexivity.
Qed.

(** C4 (amended): the sampling gate works on the sum of the two durations
    as the code forms it, in [size_t] milliseconds: samplingTime +
    samplingInterval modulo 2^64, which is the sum itself whenever that
    fits a [size_t]. When this sum is zero, as it is with both durations
    zero, the gate lets every call through; otherwise it lets a call
    through exactly when elapsed mod (the sum) <= samplingTime. A call the
    gate rejects returns at once, leaving the object as it was and
    reporting nothing. [active] and [idle] are the durations as the
    constructor stores them, [MS(cfg->samplingTime)] and
    [MS(cfg->samplingInterval)]. *)
Theorem sampling_gate cfg adapter tr y :
  let active := SizeT.wrap (from_option samplingTime 0 cfg) in
  let idle := SizeT.wrap (from_option samplingInterval 0 cfg) in
  let period := SizeT.add active idle in
  reachable cfg adapter tr y ->
  (period = 0 ->
   forall elapsed, m_2CacheTask_call (shared y) elapsed = true)
  /\ (active = 0 /\ idle = 0 -> period = 0)
  /\ (period <> 0 ->
      forall elapsed,
        m_2CacheTask_call (shared y) elapsed = true
        <-> elapsed mod period <= active)
  /\ (active + idle <= SizeT.max -> period = active + idle)
  /\ (SizeT.ok (from_option samplingTime 0 cfg) ->
      active = from_option samplingTime 0 cfg)
  /\ (SizeT.ok (from_option samplingInterval 0 cfg) ->
      idle = from_option samplingInterval 0 cfg)
  /\ (forall rq,
        m_2CacheTask_call (shared y) (rq_elapsed rq) = false ->
        AddTask (shared y) rq = Returned (shared y) []).
Proof.
  intros active idle period Hr.
  destruct (reachable_settings _ _ _ _ Hr)
    as (_ & _ & _ & Ht & Hv & Hc & _).
  simpl in Ht, Hv, Hc. fold active idle in Ht, Hv, Hc. fold period in Hc.
  assert (Hspec : forall elapsed,
            m_2CacheTask_call (shared y) elapsed
            = if period =? 0 then true
              else elapsed mod period <=? active).
  { intros elapsed.
    rewrite m_2CacheTask_call_spec by (by rewrite Ht, Hv).
    by rewrite Ht, Hv. }
  split; [|split; [|split; [|split; [|split; [|split]]]]].
  - intros H0 elapsed. by rewrite Hspec, H0.
  - intros [H1 H2]. unfold period. by rewrite H1, H2.
  - intros Hnz elapsed. rewrite Hspec.
    destruct (Z.eqb_spec period 0) as [H0|H0]; [done|].
    apply Z.leb_le.
  - intros Hsum.
    apply SizeTFacts.add_exact;
      [apply SizeTFacts.wrap_ok|apply SizeTFacts.wrap_ok|done].
  - apply SizeTFacts.wrap_small.
  - apply SizeTFacts.wrap_small.
  - intros rq Hrej. unfold AddTask. by rewrite Hrej.
Qed.

Lemma sampling_gate_witness :
  let cfg := Some (mkConfig true false true true 75 0 100 50) in
  m_2CacheTask_call (init cfg None) 100 = true
  /\ m_2CacheTask_call (init cfg None) 160 = true
  /\ AddTask (init cfg None)
       (mkRequest 120 (Some 64) 0 (Some (8, 8, 0)) true true "frame" 0 0
          None)
     = Returned (init cfg None) [].
Proof.
  cbv zeta.
  set (cfg := Some (mkConfig true false true true 75 0 100 50)).
  destruct (sampling_gate cfg None [] (start cfg None) (exec_nil _))
    as (_ & _ & Hiff & _ & _ & _ & Hrej).
  split; [|split].
  - apply Hiff; [vm_compute; discriminate|]. vm_compute. discriminate.
  - apply Hiff; [vm_compute; discriminate|]. vm_compute. discriminate.
  - apply Hrej. reflexivity.
Defined.

(** ** Submission *)

Lemma m_allocate_call_set_resPool s p resInfo resSize b :
  m_allocate_call (set_resPool p s) resInfo resSize b
  = let '(ok, ri, s', evs) := m_allocate_call s resInfo resSize b in
    (ok, ri, set_resPool p s', evs).
Proof.
  unfold m_allocate_call. simpl.
  destruct (m_allocate s); repeat case_match; by simplify_eq.
Qed.

Lemma AddTask_validated s rq sz w h f :
  m_2CacheTask_call s (rq_elapsed rq) = true ->
  rq_gmm rq = Some sz ->
  SizeT.add (rq_offset rq) (rq_dumpSize rq) <= SizeT.wrap sz ->
  rq_details rq = Some (w, h, f) ->
  AddTask s rq
  = AddTask_locked s rq
      (mkResInfo (rq_resType rq) w h f MOS_MEMPOOL_VIDEOMEMORY)
      (SizeT.wrap sz).
Proof.
  intros Hg Hgmm Hsz Hd. unfold AddTask. rewrite Hg, Hgmm, Hd. simpl.
  destruct (Z.ltb_spec (SizeT.wrap sz)
              (SizeT.add (rq_offset rq) (rq_dumpSize rq))); [lia|done].
Qed.

(** [m_resPool[resInfo]] changes the pool only, and only by a new node
    with an empty vector. *)
Lemma m_resPool_at_state s key found :
  (m_resPool_at s key found).1
  = set_resPool (m_resPool (m_resPool_at s key found).1) s.
Proof.
  unfold m_resPool_at. destruct (find_node _ _ _); by destruct s.
Qed.

Lemma find_node_Some pool key found b :
  find_node pool key found = Some b ->
  found = Some b /\ exists l, pool !! b = Some (key, l).
Proof.
  unfold find_node. destruct found as [b'|]; simpl; [|done].
  destruct (pool !! b') as [[k l]|] eqn:Hb; simpl; [|done].
  case_decide; [|done]. intros [= <-]. simpl in *. subst. eauto.
Qed.

Lemma m_resPool_at_found s key found b :
  find_node (m_resPool s) key found = Some b ->
  m_resPool_at s key found = (s, b).
Proof. intros H. unfold m_resPool_at. by rewrite H. Qed.

Lemma m_resPool_at_fresh s key found :
  find_node (m_resPool s) key found = None ->
  m_resPool_at s key found
  = (set_resPool (m_resPool s ++ [(key, [])]) s, length (m_resPool s))
  /\ resArray s key found = [].
Proof.
  intros H. unfold resArray, m_resPool_at. rewrite H. split; [done|].
  unfold bucket. simpl. rewrite lookup_app_r by done.
  by rewrite Nat.sub_diag.
Qed.

(** The node [m_resPool[resInfo]] yields has the key searched for. *)
Lemma m_resPool_at_key s key found :
  exists l,
    m_resPool (m_resPool_at s key found).1 !! (m_resPool_at s key found).2
    = Some (key, l)
    /\ l = resArray s key found.
Proof.
  unfold resArray, bucket.
  destruct (find_node (m_resPool s) key found) as [b|] eqn:Hf.
  - rewrite (m_resPool_at_found _ _ _ _ Hf). simpl.
    destruct (find_node_Some _ _ _ _ Hf) as (_ & l & Hl).
    exists l. by rewrite Hl.
  - destruct (m_resPool_at_fresh _ _ _ Hf) as [-> _]. simpl.
    exists []. rewrite lookup_app_r by done. by rewrite Nat.sub_diag.
Qed.


Lemma AddTask_locked_no_room s rq resInfo resSize :
  find_free (m_heap s) (resArray s (shape resInfo) (rq_found rq)) = None ->
  allocation_fails s resInfo resSize (rq_alloc_ok rq) ->
  let s1 := (m_resPool_at s (shape resInfo) (rq_found rq)).1 in
  let b := (m_resPool_at s (shape resInfo) (rq_found rq)).2 in
  AddTask_locked s rq resInfo resSize
  = if negb (m_allowDataLoss s)
       && negb (bool_decide (resArray s (shape resInfo) (rq_found rq) = []))
    then Waiting s1
           (mkWaiter b (rq_name rq) (rq_dumpSize rq) (rq_offset rq) resSize)
    else Returned s1 [EvWriteError (rq_name rq) "discarded"].
Proof.
  intros Hfree (ri & s' & evs & Ha). cbv zeta.
  unfold AddTask_locked, resArray in *. cbv zeta.
  pose proof (m_resPool_at_state s (shape resInfo) (rq_found rq)) as Hs1.
  destruct (m_resPool_at s (shape resInfo) (rq_found rq)) as [s1 b].
  simpl in *. set (pool := m_resPool s1) in Hs1. clearbody pool. subst s1.
  simpl in *. unfold bucket in *. simpl in *.
  rewrite Hfree, m_allocate_call_set_resPool, Ha.
  destruct (m_allocate_call_false _ _ _ _ _ _ _ Ha) as [-> ->]. done.
Qed.

Lemma m_allocate_call_markers s resInfo resSize b ok resInfo' s' evs :
  m_allocate_call s resInfo resSize b = (ok, resInfo', s', evs) ->
  error_markers evs = [] /\ enqueues evs = [].
Proof.
  unfold m_allocate_call.
  destruct (m_allocate s); repeat case_match; by intros [= <- <- <- <-].
Qed.

Lemma stage_markers s i nm dumpSize off resSize copy_ok s' evs :
  stage s i nm dumpSize off resSize copy_ok = (s', evs) ->
  error_markers evs
  = if copy_ok then [] else [(nm, "surface_copy_failed")].
Proof. unfold stage. by destruct copy_ok; intros [= <- <-]. Qed.

Lemma error_markers_app tr1 tr2 :
  error_markers (tr1 ++ tr2) = error_markers tr1 ++ error_markers tr2.
Proof. apply omap_app. Qed.

(** Under the lock a request is reported at most once, as a failed copy
    or as discarded. *)
Lemma AddTask_locked_markers s rq resInfo resSize s' evs :
  AddTask_locked s rq resInfo resSize = Returned s' evs ->
  error_markers evs = []
  \/ error_markers evs = [(rq_name rq, "surface_copy_failed")]
  \/ error_markers evs = [(rq_name rq, "discarded")].
Proof.
  unfold AddTask_locked. cbv zeta.
  destruct (find_free _ _).
  - destruct_stage Hst. intros [= <- <-].
    rewrite (stage_markers _ _ _ _ _ _ _ _ _ Hst).
    destruct (rq_copy_ok rq); auto.
  - destruct (m_allocate_call _ _ _ _) as [[[ok ri] sa] evs_a] eqn:Ha.
    destruct (m_allocate_call_markers _ _ _ _ _ _ _ _ Ha) as [He _].
    destruct ok.
    + destruct_stage Hst. intros [= <- <-].
      rewrite error_markers_app, He, (stage_markers _ _ _ _ _ _ _ _ _ Hst).
      destruct (rq_copy_ok rq); auto.
    + destruct (_ && _); intros [= <- <-]. auto.
Qed.

(** The size check of [AddTask] is made on the [size_t] sum
    offset + dumpSize. A request that is past the sampling gate and whose
    sum exceeds the size of the resource is reported with the tag
    "incorrect_size_offset" and dropped with the object unchanged: nothing
    is allocated or queued. A resource without GMM information is reported
    with "get_surface_size_failed" and dropped likewise. A request whose
    sum equals the size passes the check: whatever it reports bears
    another tag, and with a free buffer in the vector [m_resPool] yields
    and a successful copy it is staged and queued. *)
Lemma AddTask_size_check s rq :
  m_2CacheTask_call s (rq_elapsed rq) = true ->
  (rq_gmm rq = None ->
   AddTask s rq
   = Returned s [EvWriteError (rq_name rq) "get_surface_size_failed"])
  /\ (forall sz,
        rq_gmm rq = Some sz ->
        SizeT.wrap sz < SizeT.add (rq_offset rq) (rq_dumpSize rq) ->
        AddTask s rq
        = Returned s [EvWriteError (rq_name rq) "incorrect_size_offset"])
  /\ (forall sz,
        rq_gmm rq = Some sz ->
        SizeT.add (rq_offset rq) (rq_dumpSize rq) = SizeT.wrap sz ->
        (forall s' evs nm err,
           AddTask s rq = Returned s' evs ->
           (nm, err) ∈ error_markers evs ->
           err = "get_resource_info_failed"
           \/ err = "surface_copy_failed" \/ err = "discarded")
        /\ (forall w h f i,
              rq_details rq = Some (w, h, f) ->
              find_free (m_heap s)
                (resArray s (rq_resType rq, w, h, f) (rq_found rq))
              = Some i ->
              rq_copy_ok rq = true ->
              exists s',
                AddTask s rq
                = Returned s'
                    [EvEnqueue
                       (mkJob i (rq_name rq) (rq_offset rq)
                          (if rq_dumpSize rq =? 0
                           then SizeT.sub (SizeT.wrap sz) (rq_offset rq)
                           else rq_dumpSize rq))]
                /\ m_resQueue s' = m_resQueue s ++ [i])).
Proof.
  intros Hg. split; [|split].
  - intros Hgmm. unfold AddTask. by rewrite Hg, Hgmm.
  - intros sz Hgmm Hlt. unfold AddTask. rewrite Hg, Hgmm. simpl.
    destruct (Z.ltb_spec (SizeT.wrap sz)
                (SizeT.add (rq_offset rq) (rq_dumpSize rq))); [done|lia].
  - intros sz Hgmm Heq. split.
    + intros s' evs nm err. unfold AddTask. rewrite Hg, Hgmm. simpl.
      rewrite Heq, Z.ltb_irrefl.
      destruct (rq_details rq) as [[[w h] f]|].
      * intros H Hin.
        destruct (AddTask_locked_markers _ _ _ _ _ _ H) as [E|[E|E]];
          rewrite E in Hin.
        -- by apply elem_of_nil in Hin.
        -- apply list_elem_of_singleton in Hin as [= -> ->]. auto.
        -- apply list_elem_of_singleton in Hin as [= -> ->]. auto.
      * intros [= <- <-] Hin.
        apply list_elem_of_singleton in Hin as [= -> ->]. auto.
    + intros w h f i Hd Hfree Hcopy.
      rewrite (AddTask_validated s rq sz w h f) by (done || lia).
      unfold AddTask_locked, resArray, shape in *. cbv zeta. simpl in *.
      pose proof (m_resPool_at_state s (rq_resType rq, w, h, f) (rq_found rq))
        as Hs1.
      destruct (m_resPool_at s (rq_resType rq, w, h, f) (rq_found rq))
        as [s1 b].
      simpl in *. set (pool := m_resPool s1) in Hs1. clearbody pool.
      subst s1. simpl in *.
      rewrite Hfree. unfold stage. rewrite Hcopy. eauto.
Qed.

(** C5: the size check misses a sum that overflows. For offset = 2^64 - 1
    and dumpSize = 2 on a resource of 64 bytes, offset + dumpSize exceeds
    the size of the resource, yet the [size_t] sum the code compares is 1
    and passes the check: no marker is reported, a staging buffer is
    allocated, and a job with that offset and size is queued, whose range
    lies beyond the end of the resource. *)
Theorem AddTask_size_check_overflow :
  let rq :=
    mkRequest 0 (Some 64) 0 (Some (8, 8, 0)) true true "frame" 2 SizeT.max
      None in
  SizeT.ok (rq_offset rq) /\ SizeT.ok (rq_dumpSize rq)
  /\ 64 < rq_offset rq + rq_dumpSize rq
  /\ SizeT.add (rq_offset rq) (rq_dumpSize rq) = 1
  /\ exists s',
       AddTask (init None None) rq
       = Returned s'
           [EvAllocated MOS_MEMPOOL_SYSTEMMEMORY 64;
            EvEnqueue (mkJob 0 "frame" SizeT.max 2)]
       /\ m_resQueue s' = [0%nat]
       /\ m_heap s' = [mkRes true 2 SizeT.max "frame"].
Proof.
  cbv zeta. simpl.
  split; [apply SizeTFacts.max_ok|].
  split; [unfold SizeT.ok, SizeT.max, SizeT.modulus; lia|].
  split; [unfold SizeT.max, SizeT.modulus; lia|].
  split; [vm_compute; reflexivity|].
  eexists. split; [vm_compute; reflexivity|]. split; reflexivity.
Qed.

(** ** No room for a new buffer *)

(** C9: with data loss allowed, a request that is past the checks, finds
    no free buffer in its bucket and cannot have one allocated is dropped:
    exactly one marker, tagged "discarded", is reported; nothing is staged
    or queued and the usage of both tiers is as before. Its bucket is the
    vector [m_resPool[resInfo]] yields. *)
Theorem AddTask_discarded s rq sz w h f :
  let resInfo := mkResInfo (rq_resType rq) w h f MOS_MEMPOOL_VIDEOMEMORY in
  m_2CacheTask_call s (rq_elapsed rq) = true ->
  rq_gmm rq = Some sz ->
  SizeT.add (rq_offset rq) (rq_dumpSize rq) <= SizeT.wrap sz ->
  rq_details rq = Some (w, h, f) ->
  m_allowDataLoss s = true ->
  find_free (m_heap s) (resArray s (shape resInfo) (rq_found rq)) = None ->
  allocation_fails s resInfo (SizeT.wrap sz) (rq_alloc_ok rq) ->
  exists s' evs,
    AddTask s rq = Returned s' evs
    /\ evs = [EvWriteError (rq_name rq) "discarded"]
    /\ error_markers evs = [(rq_name rq, "discarded")]
    /\ enqueues evs = []
    /\ (forall p, allocated p evs = 0)
    /\ m_resQueue s' = m_resQueue s
    /\ m_heap s' = m_heap s
    /\ m_memMng1st s' = m_memMng1st s
    /\ m_memMng2nd s' = m_memMng2nd s.
Proof.
  intros resInfo Hg Hgmm Hsz Hd Hloss Hfree Hfail.
  rewrite (AddTask_validated s rq sz w h f) by done.
  rewrite (AddTask_locked_no_room s rq resInfo) by done.
  rewrite Hloss. simpl. eexists _, _. split; [reflexivity|].
  rewrite (m_resPool_at_state s). repeat split.
Qed.

Lemma AddTask_discarded_witness :
  let s := init None (Some (mkAdapterInfo 1000 0)) in
  exists s',
    AddTask s
      (mkRequest 0 (Some 4096) 0 (Some (64, 64, 0)) true true "frame" 0 0 None)
    = Returned s' [EvWriteError "frame" "discarded"]
    /\ m_resQueue s' = [] /\ m_heap s' = []
    /\ usage (m_memMng1st s') = 0.
Proof.
  cbv zeta.
  destruct (AddTask_discarded (init None (Some (mkAdapterInfo 1000 0)))
              (mkRequest 0 (Some 4096) 0 (Some (64, 64, 0)) true true
                 "frame" 0 0 None) 4096 64 64 0)
    as (s' & evs & H & -> & _ & _ & _ & Hq & Hh & H1 & _);
    try reflexivity.
  - vm_compute. discriminate.
  - eexists _, _, _. reflexivity.
  - exists s'. rewrite Hq, Hh, H1. done.
Defined.




(** ** The budgets of the tiers *)

Lemma add_usage_0 m : SizeT.ok (usage m) -> add_usage 0 m = m.
Proof.
  intros H. destruct m as [p c u]. unfold add_usage. simpl in *.
  by rewrite SizeTFacts.add_0_r.
Qed.

(** What a call of the allocator does, tier by tier. *)
Lemma m_allocate_call_spec s resInfo n b ok resInfo' s' evs :
  policy (m_memMng1st s) = MOS_MEMPOOL_SYSTEMMEMORY ->
  policy (m_memMng2nd s) = MOS_MEMPOOL_VIDEOMEMORY ->
  SizeT.ok (usage (m_memMng1st s)) -> SizeT.ok (usage (m_memMng2nd s)) ->
  m_allocate_call s resInfo n b = (ok, resInfo', s', evs) ->
  let fits (m : MemMng) := SizeT.add (usage m) n <= cap m in
  (ok = true <->
   b = true
   /\ (fits (m_memMng1st s)
       \/ (m_allocate s = AllocateTwoTiers /\ fits (m_memMng2nd s))))
  /\ (ok = false -> s' = s /\ evs = [])
  /\ (ok = true -> fits (m_memMng1st s) ->
      m_memMng1st s' = add_usage n (m_memMng1st s)
      /\ m_memMng2nd s' = m_memMng2nd s
      /\ dwMemType resInfo' = policy (m_memMng1st s)
      /\ evs = [EvAllocated (policy (m_memMng1st s)) n])
  /\ (ok = true -> ~ fits (m_memMng1st s) ->
      m_memMng2nd s' = add_usage n (m_memMng2nd s)
      /\ m_memMng1st s' = m_memMng1st s
      /\ dwMemType resInfo' = policy (m_memMng2nd s)
      /\ evs = [EvAllocated (policy (m_memMng2nd s)) n]).
Proof.
  intros Hp1 Hp2 Hu1 Hu2 H. cbv zeta.
  unfold m_allocate_call in H. rewrite Hp1, Hp2 in *.
  destruct (m_allocate s) eqn:Hm.
  - destruct (Z.ltb_spec (cap (m_memMng1st s))
                (SizeT.add (usage (m_memMng1st s)) n)) as [Ho1|Ho1];
    destruct (Z.ltb_spec (cap (m_memMng2nd s))
                (SizeT.add (usage (m_memMng2nd s)) n)) as [Ho2|Ho2];
    destruct b; simpl in H; injection H as <- <- <- <-; simpl;
    rewrite ?add_usage_0 by done;
    split_and!; try split; intros; try done; try lia; naive_solver lia.
  - destruct (Z.ltb_spec (cap (m_memMng1st s))
                (SizeT.add (usage (m_memMng1st s)) n)) as [Ho1|Ho1];
    destruct b; simpl in H; injection H as <- <- <- <-; simpl;
    split_and!; try split; intros; try done; try lia;
    intuition (done || lia).
Qed.

(** C6: in every reachable state the usage of a tier is the sum of the
    sizes of the buffers allocated from it so far (a [size_t] sum, exact
    whenever the sum fits one) and is at most the capacity of the tier;
    releasing a buffer, by the worker or by the final loop, leaves both
    usages as they are; and a call of the allocator returns success exactly
    when the budget check usage + size <= capacity passes for tier 1, or
    else for tier 2 when that tier is in use, and the backend succeeds, in
    which case it adds the size to the usage of that tier only, and
    otherwise changes nothing. *)
Theorem tier_usage cfg adapter tr y :
  reachable cfg adapter tr y ->
  let s := shared y in
  let m1 := m_memMng1st s in
  let m2 := m_memMng2nd s in
  let fits (m : MemMng) (n : Z) := SizeT.add (usage m) n <= cap m in
  usage m1 = SizeT.wrap (allocated (policy m1) tr)
  /\ usage m2 = SizeT.wrap (allocated (policy m2) tr)
  /\ (allocated (policy m1) tr <= SizeT.max ->
      usage m1 = allocated (policy m1) tr)
  /\ (allocated (policy m2) tr <= SizeT.max ->
      usage m2 = allocated (policy m2) tr)
  /\ usage m1 <= cap m1
  /\ usage m2 <= cap m2
  /\ (forall s',
        worker_release s = Some s' ->
        m_memMng1st s' = m1 /\ m_memMng2nd s' = m2)
  /\ (forall lock_ok,
        m_memMng1st (ScheduleTasks_drain s lock_ok).1 = m1
        /\ m_memMng2nd (ScheduleTasks_drain s lock_ok).1 = m2)
  /\ (forall resInfo n b ok resInfo' s' evs,
        m_allocate_call s resInfo n b = (ok, resInfo', s', evs) ->
        (ok = true <->
         b = true
         /\ (fits m1 n \/ (m_allocate s = AllocateTwoTiers /\ fits m2 n)))
        /\ (ok = false -> s' = s /\ evs = [])
        /\ (ok = true -> fits m1 n ->
            usage (m_memMng1st s') = SizeT.add (usage m1) n
            /\ m_memMng2nd s' = m2
            /\ evs = [EvAllocated (policy m1) n])
        /\ (ok = true -> ~ fits m1 n ->
            usage (m_memMng2nd s') = SizeT.add (usage m2) n
            /\ m_memMng1st s' = m1
            /\ evs = [EvAllocated (policy m2) n])).
Proof.
  intros Hr. pose proof (reachable_Inv _ _ _ _ Hr) as HI.
  destruct (Inv_policies _ _ _ _ HI) as [Hp1 Hp2].
  destruct HI as [_ HB _ _ _ _ _ _].
  destruct (budget_inv_usage_ok _ _ HB) as [Hu1 Hu2].
  destruct HB as [B1 B2 B3 B4 B5 _].
  cbv zeta. rewrite Hp1, Hp2.
  split; [done|]. split; [done|].
  split; [intros Hle; rewrite B1; apply SizeTFacts.wrap_small; split; auto|].
  split; [intros Hle; rewrite B2; apply SizeTFacts.wrap_small; split; auto|].
  split; [done|]. split; [done|]. split; [|split].
  - intros s'. unfold worker_release.
    destruct (m_resQueue (shared y)); [done|]. by intros [= <-].
  - intros lock_ok. unfold ScheduleTasks_drain. by destruct (drain _ _ _).
  - intros resInfo n b ok resInfo' s' evs Ha.
    destruct (m_allocate_call_spec _ _ _ _ _ _ _ _ Hp1 Hp2 Hu1 Hu2 Ha)
      as (H1 & H2 & H3 & H4).
    rewrite Hp1, Hp2 in *.
    split; [done|]. split; [done|]. split.
    + intros Hok Hfit. destruct (H3 Hok Hfit) as (-> & -> & _ & ->). done.
    + intros Hok Hfit. destruct (H4 Hok Hfit) as (-> & -> & _ & ->). done.
Qed.

Lemma tier_usage_witness :
  let s := init None (Some (mkAdapterInfo 1000 0)) in
  usage (m_memMng1st s) = 0
  /\ (forall resInfo' s' evs,
        m_allocate_call s (mkResInfo 0 8 8 0 MOS_MEMPOOL_VIDEOMEMORY) 512 true
        = (true, resInfo', s', evs) ->
        usage (m_memMng1st s') = 512
        /\ evs = [EvAllocated MOS_MEMPOOL_SYSTEMMEMORY 512]).
Proof.
  cbv zeta.
  destruct (tier_usage None (Some (mkAdapterInfo 1000 0)) []
              (start None (Some (mkAdapterInfo 1000 0))) (exec_nil _))
    as (_ & _ & H3 & _ & _ & _ & _ & _ & H9).
  split; [apply H3; vm_compute; discriminate|].
  intros resInfo' s' evs Ha.
  destruct (H9 _ _ _ _ _ _ _ Ha) as (_ & _ & H & _).
  destruct H as (Hu & _ & He); [reflexivity|vm_compute; discriminate|].
  split; [exact Hu|exact He].
Defined.

(** ** The scheduler *)

Lemma exec_step y evs y' : step y evs y' -> exec y evs y'.
Proof. intros H. apply (exec_snoc y [] y evs y'); [constructor|done]. Qed.

Lemma exec_trans y tr1 y1 tr2 y2 :
  exec y tr1 y1 -> exec y1 tr2 y2 -> exec y (tr1 ++ tr2) y2.
Proof.
  intros H1 H2. induction H2 as [|y1 tr2 y2 evs y3 _ IH Hs].
  - by rewrite app_nil_r.
  - rewrite app_assoc. eapply exec_snoc; [by apply IH|done].
Qed.

Lemma producer_step_queue cfg adapter tr y evs s' :
  Inv (init cfg adapter) tr y ->
  produce (shared y) evs s' ->
  dumps evs = []
  /\ (length (m_resQueue (shared y)) <= length (m_resQueue s'))%nat.
Proof.
  intros [_ _ Hh _ _ _ _ _] HP.
  destruct (produce_queue _ _ _ Hh HP) as (_ & _ & _ & Hd & new & Hq & _).
  split; [done|]. rewrite Hq, length_app. lia.
Qed.

(** C7: at any instant at most one dump task is in flight, and
    [m_ready4Dump] is false exactly from the moment the scheduler takes a
    job until the task launched for it has popped it; [DoDump] runs for the
    jobs in the order they were pushed on the queue. The scheduler takes a
    job only when [m_ready4Dump] holds and no task is in flight, and takes
    the front of the queue, which stays on the queue; the task it then
    launches is for that job, still at the front, with no task in flight;
    every [DoDump] is for the front of the queue (the whole queue, front to
    back, in the final loop, which runs when no task is in flight); and a
    job is popped only once the [DoDump] for it has returned. *)
Theorem single_flight_fifo cfg adapter tr y :
  reachable cfg adapter tr y ->
  (length (workers y) <= 1)%nat
  /\ (m_ready4Dump (shared y) = true
      <-> workers y = [] /\ forall qf, sched y <> SchedLaunch qf)
  /\ (forall qf, sched y = SchedLaunch qf ->
        workers y = [] /\ head (m_resQueue (shared y)) = Some qf)
  /\ (forall w, w ∈ workers y ->
        head (m_resQueue (shared y)) = Some (wk_job w))
  /\ (sched y = SchedDone -> workers y = [])
  /\ dumps tr `prefix_of` enqueues tr
  /\ forall evs y', step y evs y' ->
       (forall qf, sched y = SchedLoop -> sched y' = SchedLaunch qf ->
          m_ready4Dump (shared y) = true /\ workers y = []
          /\ head (m_resQueue (shared y)) = Some qf
          /\ m_ready4Dump (shared y') = false
          /\ workers y' = [] /\ launched y' = launched y
          /\ m_resQueue (shared y') = m_resQueue (shared y))
       /\ (launched y' <> launched y ->
           m_ready4Dump (shared y) = false /\ workers y = []
           /\ exists qf,
                sched y = SchedLaunch qf
                /\ head (m_resQueue (shared y)) = Some qf
                /\ workers y' = [mkWorker (launched y) qf false]
                /\ launched y' = S (launched y)
                /\ m_resQueue (shared y') = m_resQueue (shared y))
       /\ (dumps evs <> [] ->
           (exists w,
              workers y = [w] /\ wk_dumped w = false
              /\ dumps evs
                 = jobs (m_heap (shared y)) (take 1 (m_resQueue (shared y)))
              /\ m_resQueue (shared y') = m_resQueue (shared y))
           \/ (workers y = [] /\ sched y = SchedJoin
               /\ dumps evs
                  = jobs (m_heap (shared y)) (m_resQueue (shared y))))
       /\ ((length (m_resQueue (shared y'))
            < length (m_resQueue (shared y)))%nat ->
           (exists w,
              workers y = [w] /\ wk_dumped w = true
              /\ m_resQueue (shared y)
                 = wk_job w :: m_resQueue (shared y'))
           \/ (workers y = [] /\ sched y = SchedJoin
               /\ dumps evs
                  = jobs (m_heap (shared y)) (m_resQueue (shared y))
               /\ m_resQueue (shared y') = [])).
Proof.
  intros Hr. pose proof (reachable_Inv _ _ _ _ Hr) as HI.
  pose proof HI as [_ _ Hh H1 Hrdy Hf Hdn Hfifo Hln].
  split; [done|]. split; [done|]. split; [done|].
  split; [intros w Hw; by destruct (Hf w Hw)|]. split; [done|].
  split; [by eexists|].
  intros evs y' Hstep.
  destruct Hstep as [y rq s' evs H|y rq s' w H|y l1 w l2 c s' evs Hws H|y
                    |y Hsc Hstop|y qf q Hsc Hstop Hrd Hq|y qf Hsc
                    |y l1 w l2 lk Hws Hd|y l1 w l2 s' Hws Hd H
                    |y lk s' evs Hsc Hfut H]; simpl.
  - pose proof (AddTask_produce (shared y) rq) as HP. rewrite H in HP.
    destruct (producer_step_queue _ _ _ _ _ _ HI HP) as [Hd Hl].
    split; [congruence|]. split; [done|]. split; [by rewrite Hd|lia].
  - pose proof (AddTask_produce (shared y) rq) as HP. rewrite H in HP.
    destruct (producer_step_queue _ _ _ _ _ _ HI HP) as [Hd Hl].
    split; [congruence|]. split; [done|]. split; [done|lia].
  - pose proof (AddTask_resume_produce _ _ _ _ _ H) as HP.
    destruct (producer_step_queue _ _ _ _ _ _ HI HP) as [Hd Hl].
    split; [congruence|]. split; [done|]. split; [by rewrite Hd|lia].
  - split; [congruence|]. split; [done|]. split; [done|lia].
  - split; [done|]. split; [done|]. split; [done|lia].
  - destruct (proj1 Hrdy Hrd) as [Hw _].
    split; [|split; [done|split; [done|lia]]].
    intros qf' _ [= <-]. rewrite Hq. done.
  - destruct (Hln qf Hsc) as [Hw Hhd].
    split; [congruence|]. split; [|split; [done|lia]].
    intros _. split.
    { destruct (m_ready4Dump (shared y)) eqn:E; [|done].
      destruct (proj1 Hrdy eq_refl) as [_ E']. by destruct (E' qf). }
    split; [done|]. exists qf. rewrite Hw. done.
  - destruct (Inv_workers _ _ _ HI) as [Hw|[w0 Hw]];
      rewrite Hw in Hws; [by destruct l1|].
    apply singleton_split in Hws as (-> & <- & ->).
    destruct (Hf w) as [Hhd _]; [rewrite Hw; by left|].
    destruct (m_resQueue (shared y)) as [|i q] eqn:Hq; [done|].
    injection Hhd as ->.
    split; [congruence|]. split; [done|]. split; [|lia]. intros _. left.
    exists w.
    split; [done|]. split; [done|]. split; [|done].
    destruct (job_of_is_Some (m_heap (shared y)) (wk_job w)) as (j & Hj & _).
    { apply heap_ok_lookup; [done|]. rewrite Hq. by left. }
    destruct (DoDump_events _ _ lk _ Hj) as (D1 & _).
    rewrite D1. change (take 1 (wk_job w :: q)) with [wk_job w].
    by rewrite jobs_cons, Hj.
  - destruct (Inv_workers _ _ _ HI) as [Hw|[w0 Hw]];
      rewrite Hw in Hws; [by destruct l1|].
    apply singleton_split in Hws as (-> & <- & ->).
    destruct (Hf w) as [Hhd _]; [rewrite Hw; by left|].
    unfold worker_release in H.
    destruct (m_resQueue (shared y)) as [|i q] eqn:Hq; [done|].
    injection Hhd as ->. injection H as <-. simpl.
    split; [congruence|]. split; [done|]. split; [done|]. intros _. left.
    by exists w.
  - assert (Hw : workers y = []).
    { destruct (Inv_workers _ _ _ HI) as [Hw|[w Hw]]; [done|].
      destruct (Hf w) as [_ Hl]; [rewrite Hw; by left|].
      destruct (Hfut w); [rewrite Hw; by left|done]. }
    unfold ScheduleTasks_drain in H.
    destruct (drain _ _ lk) as [heap' evs'] eqn:Hdr. injection H as <- <-.
    destruct (drain_spec _ _ _ _ _
                (fun i Hi => heap_ok_lookup _ _ Hh Hi) Hdr) as (D1 & _).
    split; [done|]. split; [done|]. split; intros _; right; by rewrite D1.
Qed.

(** ** Shutdown *)

(** After the [break], with no task in flight, the scheduler runs the
    final loop and returns. *)
Lemma join_idle y :
  sched y = SchedJoin -> workers y = [] ->
  exists tr' y', exec y tr' y' /\ sched y' = SchedDone.
Proof.
  intros Hsc Hw.
  destruct (ScheduleTasks_drain (shared y) (fun _ => true)) as [s' evs] eqn:Hd.
  exists evs, (mkSys s' (waiters y) (workers y) (launched y) SchedDone).
  split; [|reflexivity].
  apply exec_step. eapply step_schedule_drain; [done| |exact Hd].
  rewrite Hw. intros w Hin. by apply elem_of_nil in Hin.
Qed.

Lemma join_dumped cfg adapter tr y w :
  Inv (init cfg adapter) tr y ->
  sched y = SchedJoin -> workers y = [w] -> wk_dumped w = true ->
  exists tr' y', exec y tr' y' /\ sched y' = SchedDone.
Proof.
  intros HI Hsc Hw Hd.
  destruct HI as [_ _ _ _ _ Hf _ _].
  destruct (Hf w) as [Hhd _]; [rewrite Hw; by left|].
  destruct (worker_release (shared y)) as [s'|] eqn:Hrel.
  2: { unfold worker_release in Hrel.
       by destruct (m_resQueue (shared y)). }
  assert (Hs : step y []
                 (mkSys s' (waiters y) ([] ++ []) (launched y) (sched y))).
  { by eapply (step_worker_release y [] w []). }
  destruct (join_idle
              (mkSys s' (waiters y) ([] ++ []) (launched y) (sched y)))
    as (tr' & y' & He & Hdone); [done|done|].
  exists ([] ++ tr'), y'. split; [|done].
  eapply exec_trans; [by apply exec_step|done].
Qed.

(** Once the stop flag is set the scheduler thread can run to its end. *)
Lemma shutdown_progress cfg adapter tr y :
  Inv (init cfg adapter) tr y ->
  m_stopScheduler (shared y) = true ->
  exists tr' y', exec y tr' y' /\ sched y' = SchedDone.
Proof.
  intros HI Hstop.
  assert (Hjoin : forall tr y, Inv (init cfg adapter) tr y ->
            sched y = SchedJoin ->
            exists tr' y', exec y tr' y' /\ sched y' = SchedDone).
  { clear. intros tr y HI Hsc.
    destruct (Inv_workers _ _ _ HI) as [Hw|[w Hw]]; [by apply join_idle|].
    destruct (wk_dumped w) eqn:Hd; [by eapply join_dumped|].
    pose (y1 := mkSys (shared y) (waiters y)
                  ([] ++ mkWorker (wk_id w) (wk_job w) true :: [])
                  (launched y) (sched y)).
    assert (Hs : step y (DoDump (m_heap (shared y)) (wk_job w) true) y1).
    { by apply (step_worker_dump y [] w [] true). }
    destruct (join_dumped cfg adapter _ y1 (mkWorker (wk_id w) (wk_job w) true)
                (Inv_step _ _ _ _ _ _ HI Hs))
      as (tr' & y' & He & Hdone); [done|done|done|].
    eexists _, y'. split; [|done].
    eapply exec_trans; [by apply exec_step|done]. }
  destruct (sched y) as [|qf| |] eqn:Hsc.
  - pose (y1 := mkSys (shared y) (waiters y) (workers y) (launched y)
                  SchedJoin).
    assert (Hs : step y [] y1) by (by apply step_schedule_break).
    destruct (Hjoin _ y1 (Inv_step _ _ _ _ _ _ HI Hs))
      as (tr' & y' & He & Hdone); [done|].
    eexists _, y'. split; [|done].
    eapply exec_trans; [by apply exec_step|done].
  - pose (y0 := mkSys (shared y) (waiters y)
                  (workers y ++ [mkWorker (launched y) qf false])
                  (S (launched y)) SchedLoop).
    assert (Hs0 : step y [] y0) by (by apply step_schedule_launch).
    pose proof (Inv_step _ _ _ _ _ _ HI Hs0) as HI0.
    pose (y1 := mkSys (shared y0) (waiters y0) (workers y0) (launched y0)
                  SchedJoin).
    assert (Hs1 : step y0 [] y1) by (by apply step_schedule_break).
    destruct (Hjoin _ y1 (Inv_step _ _ _ _ _ _ HI0 Hs1))
      as (tr' & y' & He & Hdone); [done|].
    eexists _, y'. split; [|done].
    eapply exec_trans; [by apply exec_step|].
    eapply exec_trans; [by apply exec_step|done].
  - by eapply Hjoin.
  - exists [], y. split; [constructor|done].
Qed.

Lemma step_stop y evs y' :
  heap_ok (shared y) -> step y evs y' ->
  (sched y = SchedJoin \/ sched y = SchedDone ->
   m_stopScheduler (shared y) = true) ->
  sched y' = SchedJoin \/ sched y' = SchedDone ->
  m_stopScheduler (shared y') = true.
Proof.
  intros Hh Hstep.
  destruct Hstep as [y rq s' evs H|y rq s' w H|y l1 w l2 c s' evs Hws H|y
                    |y Hsc Hstop|y qf q Hsc Hstop Hrd Hq|y qf Hsc
                    |y l1 w l2 lk Hws Hd|y l1 w l2 s' Hws Hd H
                    |y lk s' evs Hsc Hfut H]; simpl; intros IH Hne.
  - pose proof (AddTask_produce (shared y) rq) as HP. rewrite H in HP.
    destruct (produce_queue _ _ _ Hh HP) as (_ & _ & -> & _). by apply IH.
  - pose proof (AddTask_produce (shared y) rq) as HP. rewrite H in HP.
    destruct (produce_queue _ _ _ Hh HP) as (_ & _ & -> & _). by apply IH.
  - pose proof (AddTask_resume_produce _ _ _ _ _ H) as HP.
    destruct (produce_queue _ _ _ Hh HP) as (_ & _ & -> & _). by apply IH.
  - done.
  - done.
  - by destruct Hne.
  - by destruct Hne.
  - by apply IH.
  - unfold worker_release in H.
    destruct (m_resQueue (shared y)); [done|]. injection H as <-.
    by apply IH.
  - unfold ScheduleTasks_drain in H. destruct (drain _ _ _).
    injection H as <- <-. apply IH. by left.
Qed.

(** The scheduler leaves its loop only with the stop flag set, and the
    flag is never cleared. *)
Lemma reachable_stop cfg adapter tr y :
  reachable cfg adapter tr y ->
  sched y = SchedJoin \/ sched y = SchedDone ->
  m_stopScheduler (shared y) = true.
Proof.
  unfold reachable. intros H.
  remember (start cfg adapter) as y0 eqn:Hy0.
  induction H as [y|y tr y1 evs y2 Hex IH Hstep]; subst;
    [by intros [?|?]|].
  eapply step_stop; [|exact Hstep|by apply IH].
  by destruct (reachable_Inv cfg adapter tr y1 Hex).
Qed.

(** C8: once the destructor has set the stop flag, the scheduler thread can
    always run to its end, and the join of the destructor then returns. It
    enters the final loop only when no dump task is in flight; the loop
    runs [DoDump] on the scheduler thread for every job left on the queue,
    front to back, launching no task; when it ends the queue is empty,
    every buffer is free, and every job ever queued has been dumped, in the
    order of queueing. *)
Theorem shutdown_drains cfg adapter tr y :
  reachable cfg adapter tr y ->
  (m_stopScheduler (shared y) = true ->
   exists tr' y', exec y tr' y' /\ sched y' = SchedDone)
  /\ (forall evs y',
        step y evs y' -> sched y = SchedJoin -> sched y' = SchedDone ->
        m_stopScheduler (shared y) = true
        /\ workers y = []
        /\ dumps evs = jobs (m_heap (shared y)) (m_resQueue (shared y))
        /\ job_buf <$> dumps evs = m_resQueue (shared y)
        /\ workers y' = [] /\ launched y' = launched y
        /\ m_resQueue (shared y') = []
        /\ (forall i r, m_heap (shared y') !! i = Some r ->
              occupied r = false)
        /\ dumps (tr ++ evs) = enqueues (tr ++ evs)).
Proof.
  intros Hr. pose proof (reachable_Inv _ _ _ _ Hr) as HI.
  split; [by eapply shutdown_progress|].
  intros evs y' Hstep Hsc Hdone.
  pose proof (Inv_step _ _ _ _ _ _ HI Hstep) as HI'.
  assert (Hstop : m_stopScheduler (shared y) = true).
  { apply (reachable_stop _ _ _ _ Hr). by left. }
  split; [done|].
  destruct Hstep as [y rq s' evs H|y rq s' w H|y l1 w l2 c s' evs Hws H|y
                    |y Hsc' Hstop'|y qf q Hsc' Hstop' Hrd Hq|y qf Hsc'
                    |y l1 w l2 lk Hws Hd|y l1 w l2 s' Hws Hd H
                    |y lk s' evs Hsc' Hfut H]; simpl in *;
    try congruence.
  destruct HI as [_ _ Hh _ _ Hf _ Hfifo].
  assert (Hw : workers y = []).
  { destruct (workers y) as [|w ws] eqn:Hw; [done|].
    destruct (Hf w) as [_ Hl]; [by left|].
    destruct (Hfut w); [by left|done]. }
  unfold ScheduleTasks_drain in H.
  destruct (drain _ _ lk) as [heap' evs'] eqn:Hdr. injection H as <- <-.
  destruct (drain_spec _ _ _ _ _
              (fun i Hi => heap_ok_lookup _ _ Hh Hi) Hdr) as (D1 & D2 & _ & _).
  destruct (jobs_length (m_heap (shared y)) (m_resQueue (shared y))
              (fun i Hi => heap_ok_lookup _ _ Hh Hi)) as [_ Hbuf].
  destruct HI' as [_ _ [_ Hocc'] _ _ _ _ Hfifo']. simpl in *.
  split; [done|]. split; [done|]. split; [by rewrite D1|].
  split; [done|]. split; [done|]. split; [done|]. split.
  - intros i r Hi. destruct (occupied r) eqn:Ho; [|done].
    assert (Hin : i ∈ @nil nat) by (apply Hocc'; eauto).
    by apply elem_of_nil in Hin.
  - unfold pending in Hfifo'. simpl in Hfifo'. rewrite Hw in Hfifo'.
    simpl in Hfifo'. by rewrite Hfifo', app_nil_r.
Qed.

(** ** The sample run *)

Lemma step_AddTask_returned y rq :
  is_returned (AddTask (shared y) rq) = true ->
  step y (outcome_events (AddTask (shared y) rq)) (after_AddTask y rq).
Proof.
  intros H. unfold after_AddTask.
  destruct (AddTask (shared y) rq) as [s' evs|] eqn:E; [|done].
  by apply (step_AddTask y rq).
Qed.

Lemma sample_queued2_reachable :
  reachable None None sample_trace2 sample_queued2.
Proof.
  unfold reachable.
  apply (exec_trans (start None None)
           [EvAllocated MOS_MEMPOOL_SYSTEMMEMORY 64;
            EvEnqueue (mkJob 0 "first" 0 64)]
           sample_queued1
           [EvAllocated MOS_MEMPOOL_SYSTEMMEMORY 64;
            EvEnqueue (mkJob 1 "second" 0 64)]).
  - apply exec_step.
    apply (step_AddTask (start None None) (sample_request "first" None)
             (shared sample_queued1)).
    vm_compute. reflexivity.
  - apply exec_step.
    apply (step_AddTask sample_queued1 (sample_request "second" (Some 0%nat))
             (shared sample_queued2)).
    vm_compute. reflexivity.
Qed.

Lemma sample_dumped_reachable :
  reachable None None
    (sample_trace2 ++ DoDump (m_heap (shared sample_dispatched)) 0 true)
    sample_dumped.
Proof.
  unfold reachable.
  apply (exec_snoc _ _ sample_dispatched).
  - rewrite <- (app_nil_r sample_trace2).
    apply (exec_snoc _ _ sample_taken).
    + rewrite <- (app_nil_r sample_trace2).
      apply (exec_snoc _ _ sample_queued2); [apply sample_queued2_reachable|].
      apply (step_schedule_take sample_queued2 0%nat [1%nat]);
        vm_compute; reflexivity.
    + apply (step_schedule_launch sample_taken 0%nat). reflexivity.
  - apply (step_worker_dump sample_dispatched [] (mkWorker 0 0 false) [] true);
      reflexivity.
Qed.

Lemma sample_stopped_reachable :
  reachable None None sample_trace2 sample_stopped.
Proof.
  unfold reachable.
  rewrite <- (app_nil_r sample_trace2).
  apply (exec_snoc _ _
           (mkSys (set_stopScheduler true (shared sample_queued2)) [] [] 0
              SchedLoop)).
  - rewrite <- (app_nil_r sample_trace2).
    apply (exec_snoc _ _ sample_queued2); [apply sample_queued2_reachable|].
    apply (step_destructor sample_queued2).
  - apply (step_schedule_break
             (mkSys (set_stopScheduler true (shared sample_queued2)) [] [] 0
                SchedLoop)); reflexivity.
Qed.

Lemma single_flight_fifo_witness :
  (length (workers sample_dumped) <= 1)%nat
  /\ dumps (sample_trace2
            ++ DoDump (m_heap (shared sample_dispatched)) 0 true)
     `prefix_of`
     enqueues (sample_trace2
               ++ DoDump (m_heap (shared sample_dispatched)) 0 true).
Proof.
  pose proof (single_flight_fifo None None _ _ sample_dumped_reachable) as H.
  exact (conj (proj1 H) (proj1 (proj2 (proj2 (proj2 (proj2 (proj2 H))))))).
Defined.

Lemma shutdown_drains_witness :
  let drained := ScheduleTasks_drain (shared sample_stopped) (fun _ => true) in
  dumps drained.2
  = jobs (m_heap (shared sample_stopped))
      (m_resQueue (shared sample_stopped))
  /\ m_resQueue drained.1 = []
  /\ dumps (sample_trace2 ++ drained.2) = enqueues (sample_trace2 ++ drained.2).
Proof.
  intros drained.
  pose proof (shutdown_drains None None _ _ sample_stopped_reachable) as [_ H].
  assert (Hs : step sample_stopped drained.2
                 (mkSys drained.1 [] [] 0 SchedDone)).
  { apply (step_schedule_drain sample_stopped (fun _ => true));
      [reflexivity| |].
    - intros w Hw. by apply elem_of_nil in Hw.
    - by destruct (ScheduleTasks_drain _ _). }
  specialize (H _ _ Hs eq_refl eq_refl). cbn [shared] in H.
  exact (conj (proj1 (proj2 (proj2 H)))
           (conj (proj1 (proj2 (proj2 (proj2 (proj2 (proj2 (proj2 H)))))))
              (proj2 (proj2 (proj2 (proj2 (proj2 (proj2 (proj2 (proj2 H)))))))))).
Defined.

(** What the sample run queues and dumps. *)
Lemma sample_run_jobs :
  enqueues sample_trace2 = [mkJob 0 "first" 0 64; mkJob 1 "second" 0 64]
  /\ m_resQueue (shared sample_queued2) = [0%nat; 1%nat]
  /\ dumps (DoDump (m_heap (shared sample_dispatched)) 0 true)
     = [mkJob 0 "first" 0 64]
  /\ jobs (m_heap (shared sample_stopped)) (m_resQueue (shared sample_stopped))
     = [mkJob 0 "first" 0 64; mkJob 1 "second" 0 64].
Proof. vm_compute. repeat split. Qed.

(** * Further properties of the code *)

(** ** The comparator of the pool *)

(** X1: two keys are the same key of the pool (neither compares less than
    the other) exactly when their Type, width, height and format agree,
    whatever their memory type; no key is less than itself; a key that is
    lexicographically below another compares less than it; and two keys of
    different shapes are ordered at least one way. *)
Theorem ResInfoCmp_same_key a b :
  (ResInfoCmp a b = false /\ ResInfoCmp b a = false <->
   Type_ a = Type_ b /\ dwWidth a = dwWidth b
   /\ dwHeight a = dwHeight b /\ Format a = Format b)
  /\ ResInfoCmp a a = false
  /\ (ResInfo_lex_lt a b -> ResInfoCmp a b = true)
  /\ (shape a <> shape b -> ResInfoCmp a b = true \/ ResInfoCmp b a = true).
Proof.
  split; [|split; [|split]].
  - rewrite ResInfoCmp_equiv. unfold shape. split.
    + by intros [= -> -> -> ->].
    + by intros (-> & -> & -> & ->).
  - apply not_true_iff_false. rewrite ResInfoCmp_spec. lia.
  - unfold ResInfo_lex_lt. rewrite ResInfoCmp_spec. lia.
  - intros Hne.
    destruct (ResInfoCmp a b) eqn:Hab; [by left|].
    destruct (ResInfoCmp b a) eqn:Hba; [by right|].
    exfalso. apply Hne. by apply ResInfoCmp_equiv.
Qed.

Lemma ResInfoCmp_same_key_witness :
  let a := mkResInfo 1 64 32 5 MOS_MEMPOOL_VIDEOMEMORY in
  let b := mkResInfo 1 64 48 5 MOS_MEMPOOL_SYSTEMMEMORY in
  ResInfoCmp a b = true
  /\ (ResInfoCmp a b = true \/ ResInfoCmp b a = true).
Proof.
  cbv zeta.
  destruct (ResInfoCmp_same_key
              (mkResInfo 1 64 32 5 MOS_MEMPOOL_VIDEOMEMORY)
              (mkResInfo 1 64 48 5 MOS_MEMPOOL_SYSTEMMEMORY))
    as (_ & _ & Hlex & Hne).
  split.
  - apply Hlex. unfold ResInfo_lex_lt. simpl. lia.
  - apply Hne. unfold shape. simpl. discriminate.
Defined.

(** ** The write strategy *)

(** X2: the four-way choice of the write closure amounts to two
    independent switches. Whatever the pipeline has done so far, a data
    write [m_write(name, data, size)] reaches the file sink exactly when
    [write2File] is configured and the trace sink exactly when
    [write2Trace] is, with the name, data and size it was called with; a
    null configuration writes to the file only. With both switches off
    nothing at all is persisted by the run, error markers included. *)
Theorem write_strategy cfg adapter tr y nm d sz :
  reachable cfg adapter tr y ->
  sinks (shared y) (EvWrite nm d sz)
  = (if from_option write2File true cfg then [SinkFile nm d sz] else [])
    ++ (if from_option write2Trace false cfg then [SinkTrace nm d sz] else [])
  /\ (from_option write2File true cfg = false ->
      from_option write2Trace false cfg = false ->
      persisted (shared y) tr = []).
Proof.
  intros Hr.
  destruct (reachable_settings _ _ _ _ Hr)
    as (_ & _ & _ & _ & _ & _ & _ & Hw & _).
  simpl in *. rewrite Hw. split.
  - by destruct (from_option write2File true cfg),
      (from_option write2Trace false cfg).
  - intros H2f H2t. rewrite H2f, H2t in Hw. unfold persisted.
    assert (Hnone : forall e, sinks (shared y) e = []).
    { intros [nm' err|nm' d' sz'| | |]; simpl; [|by rewrite Hw|done..].
      unfold m_writeError_call. rewrite Hw.
      by destruct (m_writeError (shared y)). }
    clear -Hnone. induction tr as [|e tr IH]; [done|].
    change ((e :: tr) ≫= sinks (shared y))
      with (sinks (shared y) e ++ (tr ≫= sinks (shared y))).
    by rewrite Hnone, IH.
Qed.

Lemma write_strategy_witness :
  sinks (shared sample_queued2) (EvWrite "first" (DataBuffer 0 0) 64)
  = [SinkFile "first" (DataBuffer 0 0) 64].
Proof.
  exact (proj1 (write_strategy None None _ _ "first" (DataBuffer 0 0) 64
                  sample_queued2_reachable)).
Defined.

(** ** Submission, case by case *)

Lemma m_allocate_call_frame s resInfo n b ok resInfo' s' evs :
  m_allocate_call s resInfo n b = (ok, resInfo', s', evs) ->
  m_resPool s' = m_resPool s /\ m_heap s' = m_heap s
  /\ m_resQueue s' = m_resQueue s
  /\ (if ok then exists t, evs = [EvAllocated t n] else evs = []).
Proof.
  unfold m_allocate_call.
  destruct (m_allocate s); repeat case_match; intros ?; simplify_eq;
    simpl; eauto 10.
Qed.

Lemma Returned_stage (p : State * list Event) (pre : list Event) :
  (let '(s', evs) := p in Returned s' (pre ++ evs)) = Returned p.1 (pre ++ p.2).
Proof. by destruct p. Qed.

Lemma m_resPool_at_frame s key found :
  let s1 := (m_resPool_at s key found).1 in
  m_heap s1 = m_heap s /\ m_resQueue s1 = m_resQueue s
  /\ m_memMng1st s1 = m_memMng1st s /\ m_memMng2nd s1 = m_memMng2nd s
  /\ m_allowDataLoss s1 = m_allowDataLoss s.
Proof. cbv zeta. rewrite (m_resPool_at_state s). done. Qed.


Lemma m_resPool_at_lt s key found :
  ((m_resPool_at s key found).2
   < length (m_resPool (m_resPool_at s key found).1))%nat.
Proof.
  destruct (m_resPool_at_key s key found) as (l & Hl & _).
  by eapply lookup_lt_Some.
Qed.

Lemma bucket_emplace_back s pool b i k :
  (b < length pool)%nat ->
  bucket (set_resPool (emplace_back b i pool) s) k
  = if decide (b = k) then from_option snd [] (pool !! b) ++ [i]
    else from_option snd [] (pool !! k).
Proof.
  intros [n Hn]%lookup_lt_is_Some. unfold bucket, emplace_back. simpl.
  case_decide as Hk.
  - subst. rewrite list_lookup_alter_eq, Hn. done.
  - by rewrite list_lookup_alter_ne.
Qed.

(** The three ways through the critical section: a free buffer of the
    vector is reused; or none is free and a new buffer is allocated and
    appended to the vector; or none is free and none can be allocated. *)
Lemma AddTask_locked_cases s rq resInfo n :
  let key := shape resInfo in
  let s1 := (m_resPool_at s key (rq_found rq)).1 in
  let b := (m_resPool_at s key (rq_found rq)).2 in
  let arr := resArray s key (rq_found rq) in
  let staged s2 i :=
    stage s2 i (rq_name rq) (rq_dumpSize rq) (rq_offset rq) n
      (rq_copy_ok rq) in
  (exists i,
     find_free (m_heap s) arr = Some i
     /\ AddTask_locked s rq resInfo n
        = Returned (staged s1 i).1 (staged s1 i).2)
  \/ (find_free (m_heap s) arr = None
      /\ exists resInfo' sa t,
           m_allocate_call s1 resInfo n (rq_alloc_ok rq)
           = (true, resInfo', sa, [EvAllocated t n])
           /\ let i := length (m_heap s) in
              let s2 :=
                set_resPool (emplace_back b i (m_resPool s1))
                  (set_heap (m_heap s ++ [mkRes false 0 0 ""]) sa) in
              AddTask_locked s rq resInfo n
              = Returned (staged s2 i).1
                  ([EvAllocated t n] ++ (staged s2 i).2))
  \/ (find_free (m_heap s) arr = None
      /\ allocation_fails s resInfo n (rq_alloc_ok rq)
      /\ AddTask_locked s rq resInfo n
         = if negb (m_allowDataLoss s) && negb (bool_decide (arr = []))
           then Waiting s1
                  (mkWaiter b (rq_name rq) (rq_dumpSize rq) (rq_offset rq) n)
           else Returned s1 [EvWriteError (rq_name rq) "discarded"]).
Proof.
  cbv zeta.
  destruct (m_resPool_at_frame s (shape resInfo) (rq_found rq))
    as (Hh1 & _).
  destruct (find_free (m_heap s) (resArray s (shape resInfo) (rq_found rq)))
    as [i|] eqn:Hf.
  - left. exists i. split; [done|].
    unfold AddTask_locked. cbv zeta. fold (resArray s (shape resInfo) (rq_found rq)).
    rewrite Hh1, Hf. apply (Returned_stage _ []).
  - right.
    destruct (m_allocate_call s resInfo n (rq_alloc_ok rq))
      as [[[ok ri] sa] evs_a] eqn:Ha.
    destruct ok.
    + left. split; [done|].
      destruct (m_allocate_call_frame _ _ _ _ _ _ _ _ Ha)
        as (Hp & Hh & _ & Hev).
      destruct Hev as [t ->].
      exists ri,
        (set_resPool
           (m_resPool (m_resPool_at s (shape resInfo) (rq_found rq)).1) sa), t.
      assert (Ha1 : m_allocate_call
                      (m_resPool_at s (shape resInfo) (rq_found rq)).1
                      resInfo n (rq_alloc_ok rq)
                    = (true, ri,
                       set_resPool
                         (m_resPool
                            (m_resPool_at s (shape resInfo) (rq_found rq)).1)
                         sa, [EvAllocated t n])).
      { rewrite (m_resPool_at_state s) at 1.
        by rewrite m_allocate_call_set_resPool, Ha. }
      split; [exact Ha1|].
      unfold AddTask_locked. cbv zeta.
      fold (resArray s (shape resInfo) (rq_found rq)).
      rewrite Hh1, Hf, Ha1. simpl. rewrite Hh.
      apply (Returned_stage _ [EvAllocated t n]).
    + right. assert (Hfail : allocation_fails s resInfo n (rq_alloc_ok rq))
        by (by eexists _, _, _).
      split; [done|]. split; [done|].
      by apply AddTask_locked_no_room.
Qed.

Lemma stage_copied s i nm dumpSize off n :
  stage s i nm dumpSize off n true
  = (set_resQueue (m_resQueue s ++ [i])
       (set_heap
          (<[i := mkRes true
                    (if dumpSize =? 0 then SizeT.sub n off else dumpSize)
                    off nm]> (m_heap s)) s),
     [EvEnqueue
        (mkJob i nm off
           (if dumpSize =? 0 then SizeT.sub n off else dumpSize))]).
Proof. reflexivity. Qed.

Lemma stage_not_copied s i nm dumpSize off n :
  stage s i nm dumpSize off n false
  = (s, [EvWriteError nm "surface_copy_failed"]).
Proof. reflexivity. Qed.

Lemma AddTask_cases s rq :
  (m_2CacheTask_call s (rq_elapsed rq) = false
   /\ AddTask s rq = Returned s [])
  \/ (m_2CacheTask_call s (rq_elapsed rq) = true
      /\ exists err,
           AddTask s rq = Returned s [EvWriteError (rq_name rq) err]
           /\ (err = "get_surface_size_failed"
               \/ err = "incorrect_size_offset"
               \/ err = "get_resource_info_failed"))
  \/ (m_2CacheTask_call s (rq_elapsed rq) = true
      /\ exists sz w h f,
           rq_gmm rq = Some sz
           /\ SizeT.add (rq_offset rq) (rq_dumpSize rq) <= SizeT.wrap sz
           /\ rq_details rq = Some (w, h, f)
           /\ AddTask s rq
              = AddTask_locked s rq
                  (mkResInfo (rq_resType rq) w h f MOS_MEMPOOL_VIDEOMEMORY)
                  (SizeT.wrap sz)).
Proof.
  unfold AddTask.
  destruct (m_2CacheTask_call s (rq_elapsed rq)); simpl; [|by left].
  right.
  destruct (rq_gmm rq) as [sz|]; [|left; split; [done|]; eauto].
  destruct (Z.ltb_spec (SizeT.wrap sz)
              (SizeT.add (rq_offset rq) (rq_dumpSize rq)));
    [left; split; [done|]; eauto 6|].
  destruct (rq_details rq) as [[[w h] f]|]; [|left; split; [done|]; eauto 6].
  right. split; [done|]. by exists sz, w, h, f.
Qed.

(** What a call that reaches the critical section and returns has done. *)
Lemma AddTask_locked_outcome s rq resInfo n s' evs :
  AddTask_locked s rq resInfo n = Returned s' evs ->
  let sz := if rq_dumpSize rq =? 0 then SizeT.sub n (rq_offset rq)
            else rq_dumpSize rq in
  (exists i,
     rq_copy_ok rq = true
     /\ enqueues evs = [mkJob i (rq_name rq) (rq_offset rq) sz]
     /\ error_markers evs = []
     /\ m_resQueue s' = m_resQueue s ++ [i]
     /\ m_heap s' !! i = Some (mkRes true sz (rq_offset rq) (rq_name rq)))
  \/ (enqueues evs = []
      /\ m_resQueue s' = m_resQueue s
      /\ ((rq_copy_ok rq = false
           /\ error_markers evs = [(rq_name rq, "surface_copy_failed")])
          \/ error_markers evs = [(rq_name rq, "discarded")])).
Proof.
  intros H. cbv zeta.
  destruct (m_resPool_at_frame s (shape resInfo) (rq_found rq))
    as (Hh1 & Hq1 & _).
  destruct (AddTask_locked_cases s rq resInfo n)
    as [(i & Hf & E)|[(Hf & ri & sa & t & Ha & E)|(Hf & Hfail & E)]];
    rewrite E in H; clear E.
  - destruct (find_free_Some _ _ _ Hf) as [_ (r & Hr & _)].
    destruct (rq_copy_ok rq) eqn:Hc.
    + rewrite stage_copied in H. injection H as <- <-. left. exists i.
      simpl. rewrite Hq1, Hh1.
      split; [done|]. split; [done|]. split; [done|]. split; [done|].
      apply list_lookup_insert_eq. by eapply lookup_lt_Some.
    + rewrite stage_not_copied in H. injection H as <- <-. right.
      simpl. auto.
  - destruct (m_allocate_call_frame _ _ _ _ _ _ _ _ Ha) as (_ & _ & Hq & _).
    cbv zeta in H. destruct (rq_copy_ok rq) eqn:Hc.
    + rewrite stage_copied in H. injection H as <- <-. left.
      exists (length (m_heap s)). simpl.
      split; [done|]. split; [done|]. split; [done|].
      split; [by rewrite Hq, Hq1|].
      apply list_lookup_insert_eq. rewrite length_app. simpl. lia.
    + rewrite stage_not_copied in H. injection H as <- <-. right.
      simpl. rewrite Hq. auto.
  - destruct (_ && _); [done|]. injection H as <- <-. right. simpl. auto.
Qed.

(** X4: a call of [AddTask] that returns has done exactly one thing. When
    the sampling gate rejects it, nothing. Otherwise either one job was
    pushed at the back of the queue, bound to a buffer that now carries the
    label, offset and size of the request and is occupied, and nothing was
    reported; or exactly one error marker was reported, with one of the
    five tags of [AddTask], and the queue is as before. It never both
    queues and reports. *)
Theorem AddTask_one_outcome s rq s' evs :
  AddTask s rq = Returned s' evs ->
  (m_2CacheTask_call s (rq_elapsed rq) = false -> s' = s /\ evs = [])
  /\ (m_2CacheTask_call s (rq_elapsed rq) = true ->
      (exists j,
         enqueues evs = [j] /\ error_markers evs = []
         /\ job_name j = rq_name rq /\ job_offset j = rq_offset rq
         /\ m_resQueue s' = m_resQueue s ++ [job_buf j]
         /\ m_heap s' !! job_buf j
            = Some (mkRes true (job_size j) (job_offset j) (job_name j)))
      \/ (exists err,
            error_markers evs = [(rq_name rq, err)] /\ enqueues evs = []
            /\ m_resQueue s' = m_resQueue s
            /\ err ∈ ["get_surface_size_failed"; "incorrect_size_offset";
                      "get_resource_info_failed"; "surface_copy_failed";
                      "discarded"])).
Proof.
  intros H.
  destruct (AddTask_cases s rq)
    as [[Hg E]|[(Hg & err & E & Herr)|(Hg & sz & w & h & f & _ & _ & _ & E)]];
    rewrite E in H; rewrite Hg.
  - injection H as <- <-. split; [done|]. discriminate.
  - injection H as <- <-. split; [discriminate|]. intros _. right.
    exists err. simpl. split; [done|]. split; [done|]. split; [done|].
    rewrite !elem_of_cons. tauto.
  - split; [discriminate|]. intros _.
    destruct (AddTask_locked_outcome _ _ _ _ _ _ H)
      as [(i & _ & He & Hm & Hq & Hh)|(He & Hq & [[_ Hm]|Hm])].
    + left. eexists. split; [exact He|]. simpl. done.
    + right. eexists. split; [exact Hm|]. split; [done|]. split; [done|].
      rewrite !elem_of_cons. tauto.
    + right. eexists. split; [exact Hm|]. split; [done|]. split; [done|].
      rewrite !elem_of_cons. tauto.
Qed.

Lemma AddTask_one_outcome_witness :
  let o := AddTask (init None None) (sample_request "first" None) in
  (exists j,
     enqueues (outcome_events o) = [j] /\ error_markers (outcome_events o) = []
     /\ job_name j = "first" /\ job_offset j = 0
     /\ m_resQueue (outcome_state o) = [] ++ [job_buf j]
     /\ m_heap (outcome_state o) !! job_buf j
        = Some (mkRes true (job_size j) (job_offset j) (job_name j)))
  \/ (exists err,
        error_markers (outcome_events o) = [("first", err)]
        /\ enqueues (outcome_events o) = []
        /\ m_resQueue (outcome_state o) = []
        /\ err ∈ ["get_surface_size_failed"; "incorrect_size_offset";
                  "get_resource_info_failed"; "surface_copy_failed";
                  "discarded"]).
Proof.
  cbv zeta.
  assert (H : AddTask (init None None) (sample_request "first" None)
              = Returned
                  (outcome_state
                     (AddTask (init None None) (sample_request "first" None)))
                  (outcome_events
                     (AddTask (init None None) (sample_request "first" None))))
    by (vm_compute; reflexivity).
  exact (proj2 (AddTask_one_outcome _ _ _ _ H) eq_refl).
Defined.




(** X6: when the copy of the live resource fails, the request is reported
    as "surface_copy_failed" and not queued, and no existing buffer
    changes. A buffer that was reused stays free; a buffer that was
    allocated for the request stays in the pool, free, at the end of the
    vector [m_resPool[resInfo]] yielded, and its size stays charged to its
    tier. *)
Theorem AddTask_copy_failed s rq sz w h f :
  let key : Shape := (rq_resType rq, w, h, f) in
  let resInfo := mkResInfo (rq_resType rq) w h f MOS_MEMPOOL_VIDEOMEMORY in
  let arr := resArray s key (rq_found rq) in
  let b := (m_resPool_at s key (rq_found rq)).2 in
  m_2CacheTask_call s (rq_elapsed rq) = true ->
  rq_gmm rq = Some sz ->
  SizeT.add (rq_offset rq) (rq_dumpSize rq) <= SizeT.wrap sz ->
  rq_details rq = Some (w, h, f) ->
  rq_copy_ok rq = false ->
  (find_free (m_heap s) arr = None ->
   ~ allocation_fails s resInfo (SizeT.wrap sz) (rq_alloc_ok rq)) ->
  exists s' evs,
    AddTask s rq = Returned s' evs
    /\ error_markers evs = [(rq_name rq, "surface_copy_failed")]
    /\ enqueues evs = []
    /\ m_resQueue s' = m_resQueue s
    /\ (forall k r, m_heap s !! k = Some r -> m_heap s' !! k = Some r)
    /\ (forall i,
          find_free (m_heap s) arr = Some i ->
          m_heap s' = m_heap s /\ allocations evs = 0%nat)
    /\ (find_free (m_heap s) arr = None ->
        m_heap s' = m_heap s ++ [mkRes false 0 0 ""]
        /\ bucket s' b = arr ++ [length (m_heap s)]
        /\ exists t, evs = [EvAllocated t (SizeT.wrap sz);
                            EvWriteError (rq_name rq) "surface_copy_failed"]
                     /\ allocated t evs = SizeT.wrap sz).
Proof.
  intros key resInfo arr b Hg Hgmm Hsz Hd Hc Hroom. subst key.
  rewrite (AddTask_validated s rq sz w h f) by done. fold resInfo.
  destruct (m_resPool_at_frame s (rq_resType rq, w, h, f) (rq_found rq))
    as (Hh1 & Hq1 & _).
  destruct (AddTask_locked_cases s rq resInfo (SizeT.wrap sz))
    as [(i & Hf & E)|[(Hf & ri & sa & t & Ha & E)|(Hf & Hfail & _)]];
    unfold shape in *; simpl in *; fold arr in Hf.
  - rewrite E, Hc, stage_not_copied. simpl.
    eexists _, _. split; [reflexivity|]. split; [done|]. split; [done|].
    split; [done|]. split; [by rewrite Hh1|]. split; [done|].
    rewrite Hf. discriminate.
  - cbv zeta in E. rewrite E, Hc, stage_not_copied. simpl.
    destruct (m_allocate_call_frame _ _ _ _ _ _ _ _ Ha) as (_ & _ & Hq & _).
    eexists _, _. split; [reflexivity|]. split; [done|]. split; [done|].
    split; [simpl; by rewrite Hq|]. split.
    { intros k r Hk. simpl. rewrite lookup_app_l; [done|].
      by eapply lookup_lt_Some. }
    split; [intros i Hi; rewrite Hf in Hi; discriminate|].
    intros _. split; [done|]. split.
    { rewrite bucket_emplace_back by apply m_resPool_at_lt.
      rewrite decide_True by done. reflexivity. }
    exists t. split; [done|]. unfold allocated. simpl.
    rewrite decide_True by done. lia.
  - by destruct (Hroom Hf).
Qed.

Lemma AddTask_copy_failed_witness :
  exists s' evs,
    AddTask (init None None)
      (mkRequest 0 (Some 64) 0 (Some (8, 8, 0)) true false "frame" 0 0 None)
    = Returned s' evs
    /\ error_markers evs = [("frame", "surface_copy_failed")]
    /\ m_resQueue s' = []
    /\ m_heap s' = [mkRes false 0 0 ""].
Proof.
  destruct (AddTask_copy_failed (init None None)
              (mkRequest 0 (Some 64) 0 (Some (8, 8, 0)) true false "frame" 0 0
                 None)
              64 8 8 0)
    as (s' & evs & HA & Hm & _ & Hq & _ & _ & Hnew); try reflexivity.
  - vm_compute. discriminate.
  - intros _ (ri & sa & ev & Hfail). vm_compute in Hfail. discriminate.
  - exists s', evs. split; [exact HA|]. split; [exact Hm|].
    split; [exact Hq|]. exact (proj1 (Hnew eq_refl)).
Defined.

(** X7: the part of the staging buffer a queued job names lies inside the
    resource. For a request whose offset and dumpSize are [size_t] values
    with a sum that is one too, the job that [AddTask] queues has the
    offset of the request, the size dumpSize, or the size of the resource
    less the offset when dumpSize is 0, and offset + size is at most the
    size of the resource. *)
Theorem AddTask_job_in_range s rq s' evs j sz :
  AddTask s rq = Returned s' evs ->
  j ∈ enqueues evs ->
  rq_gmm rq = Some sz ->
  SizeT.ok (rq_offset rq) -> SizeT.ok (rq_dumpSize rq) ->
  rq_offset rq + rq_dumpSize rq <= SizeT.max ->
  job_offset j = rq_offset rq
  /\ job_size j
     = (if rq_dumpSize rq =? 0 then SizeT.wrap sz - rq_offset rq
        else rq_dumpSize rq)
  /\ 0 <= job_size j
  /\ job_offset j + job_size j <= SizeT.wrap sz.
Proof.
  intros H Hj Hgmm Ho Hd Hsum.
  destruct (AddTask_cases s rq)
    as [[Hg E]|[(Hg & err & E & Herr)|(Hg & sz0 & w & h & f & Hgmm0 & Hsz & _ & E)]];
    rewrite E in H.
  - injection H as <- <-. by apply elem_of_nil in Hj.
  - injection H as <- <-. by apply elem_of_nil in Hj.
  - rewrite Hgmm in Hgmm0. injection Hgmm0 as <-.
    rewrite SizeTFacts.add_exact in Hsz by (apply Ho || apply Hd || done).
    pose proof (SizeTFacts.wrap_ok sz) as Hw.
    destruct (AddTask_locked_outcome _ _ _ _ _ _ H)
      as [(i & _ & He & _)|(He & _)]; rewrite He in Hj;
      [|by apply elem_of_nil in Hj].
    apply list_elem_of_singleton in Hj as ->. simpl.
    destruct Ho as [Ho0 Ho1], Hd as [Hd0 Hd1], Hw as [Hw0 Hw1].
    destruct (Z.eqb_spec (rq_dumpSize rq) 0) as [Hz|Hz].
    + unfold SizeT.sub. rewrite SizeTFacts.wrap_small by (split; lia). lia.
    + lia.
Qed.

Lemma AddTask_job_in_range_witness :
  let o :=
    AddTask (init None None)
      (mkRequest 0 (Some 64) 0 (Some (8, 8, 0)) true true "frame" 0 16 None) in
  let j := mkJob 0 "frame" 16 48 in
  j ∈ enqueues (outcome_events o)
  /\ job_size j = SizeT.wrap 64 - 16
  /\ job_offset j + job_size j <= SizeT.wrap 64.
Proof.
  cbv zeta.
  assert (Hj : mkJob 0 "frame" 16 48
               ∈ enqueues
                   (outcome_events
                      (AddTask (init None None)
                         (mkRequest 0 (Some 64) 0 (Some (8, 8, 0)) true true
                            "frame" 0 16 None))))
    by (vm_compute; left).
  assert (Hok : forall z, 0 <= z <= 64 -> SizeT.ok z)
    by (unfold SizeT.ok, SizeT.max, SizeT.modulus; lia).
  destruct (AddTask_job_in_range (init None None)
              (mkRequest 0 (Some 64) 0 (Some (8, 8, 0)) true true "frame" 0 16
                 None)
              _ _ (mkJob 0 "frame" 16 48) 64 eq_refl Hj eq_refl)
    as (_ & H2 & _ & H4).
  - apply Hok. simpl. lia.
  - apply Hok. simpl. lia.
  - vm_compute. discriminate.
  - split; [exact Hj|]. split; [exact H2|exact H4].
Defined.

(** ** The pool never loses a buffer *)





















(** ** Occupied buffers and queued jobs *)

(** X10: in every reachable state the occupied buffers are exactly the
    buffers of the queued jobs, and no two queued jobs share a buffer; so a
    buffer is free exactly when no job waiting to be dumped refers to
    it. *)
Theorem occupied_iff_queued cfg adapter tr y :
  reachable cfg adapter tr y ->
  NoDup (m_resQueue (shared y))
  /\ (forall i r,
        m_heap (shared y) !! i = Some r ->
        (occupied r = true <-> i ∈ m_resQueue (shared y)))
  /\ (forall i, i ∈ m_resQueue (shared y) ->
        (i < length (m_heap (shared y)))%nat).
Proof.
  intros Hr. destruct (reachable_Inv _ _ _ _ Hr) as [_ _ Hh _ _ _ _ _].
  pose proof Hh as [Hnd Hocc]. split; [done|]. split.
  - intros i r Hi. rewrite Hocc. split; [eauto|].
    intros (r' & Hr' & Ho). congruence.
  - intros i Hi. by apply heap_ok_lookup.
Qed.

Lemma occupied_iff_queued_witness :
  NoDup (m_resQueue (shared sample_dumped))
  /\ forall i, i ∈ m_resQueue (shared sample_dumped) ->
       (i < length (m_heap (shared sample_dumped)))%nat.
Proof.
  pose proof (occupied_iff_queued None None _ _ sample_dumped_reachable) as H.
  exact (conj (proj1 H) (proj2 (proj2 H))).
Defined.

Lemma produce1_keeps_queued s evs s' :
  heap_ok s -> produce1 s evs s' ->
  forall i, i ∈ m_resQueue s -> m_heap s' !! i = m_heap s !! i.
Proof.
  intros Hok H. revert Hok.
  destruct H as [s nm err|s pool|s ri n ri' s' evs Hn H|s
                |s i0 r nm off sz Hi Ho]; intros Hok i Hin; try done.
  - by destruct (m_allocate_call_frame _ _ _ _ _ _ _ _ H) as (_ & -> & _).
  - simpl. rewrite lookup_app_l; [done|]. by apply heap_ok_lookup.
  - simpl. apply list_lookup_insert_ne. intros ->.
    destruct Hok as [_ Hocc]. apply Hocc in Hin as (r' & Hr' & Ho').
    congruence.
Qed.

Lemma produce_keeps_queued s evs s' :
  heap_ok s -> produce s evs s' ->
  forall i, i ∈ m_resQueue s -> m_heap s' !! i = m_heap s !! i.
Proof.
  intros Hok H. revert Hok.
  induction H as [|s evs1 s1 evs2 s2 H1 _ IH]; intros Hok i Hin; [done|].
  destruct (produce1_queue _ _ _ Hok H1) as (Hok1 & _ & _ & _ & new & Hq & _).
  rewrite IH; [by eapply produce1_keeps_queued|done|].
  rewrite Hq. apply elem_of_app. by left.
Qed.

Lemma drain_job_of q : forall heap lock_ok heap' evs i,
  drain q heap lock_ok = (heap', evs) -> job_of heap' i = job_of heap i.
Proof.
  induction q as [|k q IH]; simpl; intros heap lock_ok heap' evs i.
  - by intros [= <- <-].
  - destruct (drain q _ lock_ok) as [h e] eqn:Hd. intros [= <- <-].
    rewrite (IH _ _ _ _ i Hd). apply job_of_free_buffer.
Qed.

(** X11: a queued job is never overwritten. No step of any thread changes
    the label, offset or size recorded in the buffer of a job that is on
    the queue, and as long as the job stays on the queue its buffer is not
    touched at all: [AddTask] writes only to buffers that are free. *)
Theorem queued_job_stable cfg adapter tr y evs y' i :
  reachable cfg adapter tr y ->
  step y evs y' ->
  i ∈ m_resQueue (shared y) ->
  job_of (m_heap (shared y')) i = job_of (m_heap (shared y)) i
  /\ (i ∈ m_resQueue (shared y') ->
      m_heap (shared y') !! i = m_heap (shared y) !! i).
Proof.
  intros Hr Hstep Hin.
  destruct (reachable_Inv _ _ _ _ Hr) as [_ _ Hh _ _ _ _ _].
  assert (Hsame : forall heap',
            heap' !! i = m_heap (shared y) !! i ->
            job_of heap' i = job_of (m_heap (shared y)) i
            /\ (i ∈ m_resQueue (shared y') ->
                heap' !! i = m_heap (shared y) !! i)).
  { intros heap' E. unfold job_of. by rewrite E. }
  destruct Hstep as [y rq s' evs H|y rq s' w H|y l1 w l2 c s' evs Hws H|y
                    |y Hsc Hstop|y qf q Hsc Hstop Hrd Hq|y qf Hsc
                    |y l1 w l2 lk Hws Hd|y l1 w l2 s' Hws Hd H
                    |y lk s' evs Hsc Hfut H]; cbn [shared] in *;
    try (by apply Hsame).
  - pose proof (AddTask_produce (shared y) rq) as HP. rewrite H in HP.
    apply Hsame. by eapply produce_keeps_queued.
  - pose proof (AddTask_produce (shared y) rq) as HP. rewrite H in HP.
    apply Hsame. by eapply produce_keeps_queued.
  - apply Hsame. eapply produce_keeps_queued; [done| |done].
    by eapply AddTask_resume_produce.
  - unfold worker_release in H.
    destruct (m_resQueue (shared y)) as [|k q] eqn:Hq; [done|].
    injection H as <-. simpl. split; [apply job_of_free_buffer|].
    intros Hin'. apply free_buffer_lookup_ne. intros ->.
    destruct Hh as [Hnd _]. rewrite Hq in Hnd.
    by apply NoDup_cons in Hnd as [Hni _].
  - unfold ScheduleTasks_drain in H.
    destruct (drain _ _ lk) as [heap' evs'] eqn:Hdr. injection H as <- <-.
    simpl. split; [by eapply drain_job_of|].
    intros Hin'. by apply elem_of_nil in Hin'.
Qed.

Lemma queued_job_stable_witness :
  job_of (m_heap (shared (after_AddTask sample_queued1
                            (sample_request "second" (Some 0%nat))))) 0
  = job_of (m_heap (shared sample_queued1)) 0.
Proof.
  assert (Hr : reachable None None
                 (outcome_events
                    (AddTask (init None None) (sample_request "first" None)))
                 sample_queued1).
  { apply exec_step.
    apply (step_AddTask_returned (start None None) (sample_request "first" None)).
    vm_compute. reflexivity. }
  assert (Hs : step sample_queued1
                 (outcome_events
                    (AddTask (shared sample_queued1)
                       (sample_request "second" (Some 0%nat))))
                 (after_AddTask sample_queued1 (sample_request "second" (Some 0%nat)))).
  { apply step_AddTask_returned. vm_compute. reflexivity. }
  assert (Hin : 0%nat ∈ m_resQueue (shared sample_queued1))
    by (vm_compute; left).
  exact (proj1 (queued_job_stable None None _ _ _ _ 0%nat Hr Hs Hin)).
Defined.

(** ** What is written *)

Lemma produce1_no_write s evs s' nm d sz :
  produce1 s evs s' -> EvWrite nm d sz ∉ evs.
Proof.
  destruct 1 as [s nm' err|s pool|s ri n ri' s' evs Hn H|s
                |s i0 r nm' off sz' Hi Ho].
  - by intros ?%list_elem_of_singleton.
  - apply not_elem_of_nil.
  - destruct (m_allocate_call_frame _ _ _ _ _ _ _ _ H) as (_ & _ & _ & t & ->).
    by intros ?%list_elem_of_singleton.
  - apply not_elem_of_nil.
  - by intros ?%list_elem_of_singleton.
Qed.

Lemma produce_no_write s evs s' nm d sz :
  produce s evs s' -> EvWrite nm d sz ∉ evs.
Proof.
  induction 1 as [|s evs1 s1 evs2 s2 H1 _ IH]; [apply not_elem_of_nil|].
  rewrite not_elem_of_app. split; [by eapply produce1_no_write|done].
Qed.

(** The job a write is for. *)
Lemma DoDump_write heap i lock_ok nm d sz :
  EvWrite nm d sz ∈ DoDump heap i lock_ok ->
  exists j,
    j ∈ dumps (DoDump heap i lock_ok)
    /\ nm = job_name j /\ d = DataBuffer (job_buf j) (job_offset j)
    /\ sz = job_size j /\ job_of heap i = Some j.
Proof.
  unfold DoDump. destruct (job_of heap i) as [j|] eqn:Hj;
    [|by intros ?%elem_of_nil].
  assert (job_buf j = i) as Hb.
  { unfold job_of in Hj. destruct (heap !! i); simpl in Hj; [|done].
    by injection Hj as <-. }
  destruct lock_ok; rewrite !elem_of_cons, elem_of_nil;
    intros [?|[?|[]]]; try done.
  simplify_eq. exists j. simpl. split; [by left|done].
Qed.

Lemma drain_write q : forall heap lock_ok heap' evs nm d sz,
  drain q heap lock_ok = (heap', evs) ->
  EvWrite nm d sz ∈ evs ->
  exists j,
    j ∈ dumps evs
    /\ nm = job_name j /\ d = DataBuffer (job_buf j) (job_offset j)
    /\ sz = job_size j.
Proof.
  induction q as [|i q IH]; simpl; intros heap lock_ok heap' evs nm d sz.
  - intros [= <- <-] Hin. by apply elem_of_nil in Hin.
  - destruct (drain q _ lock_ok) as [h e] eqn:Hd. intros [= <- <-].
    rewrite dumps_app. intros [Hin|Hin]%elem_of_app.
    + destruct (DoDump_write _ _ _ _ _ _ Hin) as (j & Hj & ? & ? & ? & _).
      exists j. split; [|done]. apply elem_of_app. by left.
    + destruct (IH _ _ _ _ _ _ _ Hd Hin) as (j & Hj & ?).
      exists j. split; [|done]. apply elem_of_app. by right.
Qed.

Lemma step_write y evs y' nm d sz :
  step y evs y' -> EvWrite nm d sz ∈ evs ->
  exists j,
    j ∈ dumps evs
    /\ nm = job_name j /\ d = DataBuffer (job_buf j) (job_offset j)
    /\ sz = job_size j.
Proof.
  intros Hstep Hin.
  destruct Hstep as [y rq s' evs H|y rq s' w H|y l1 w l2 c s' evs Hws H|y
                    |y Hsc Hstop|y qf q Hsc Hstop Hrd Hq|y qf Hsc
                    |y l1 w l2 lk Hws Hd|y l1 w l2 s' Hws Hd H
                    |y lk s' evs Hsc Hfut H];
    try (by apply elem_of_nil in Hin).
  - pose proof (AddTask_produce (shared y) rq) as HP. rewrite H in HP.
    by destruct (produce_no_write _ _ _ nm d sz HP).
  - pose proof (AddTask_resume_produce _ _ _ _ _ H) as HP.
    by destruct (produce_no_write _ _ _ nm d sz HP).
  - destruct (DoDump_write _ _ _ _ _ _ Hin) as (j & Hj & ? & ? & ? & _).
    by exists j.
  - unfold ScheduleTasks_drain in H.
    destruct (drain _ _ lk) as [heap' evs'] eqn:Hdr. injection H as <- <-.
    by eapply drain_write.
Qed.

Lemma written_dumped cfg adapter tr y nm d sz :
  reachable cfg adapter tr y ->
  EvWrite nm d sz ∈ tr ->
  exists j,
    j ∈ dumps tr
    /\ nm = job_name j /\ d = DataBuffer (job_buf j) (job_offset j)
    /\ sz = job_size j.
Proof.
  intros Hr Hin. unfold reachable in Hr.
  induction Hr as [y|y tr y1 evs y2 _ IH Hstep];
    [by apply elem_of_nil in Hin|].
  rewrite dumps_app. apply elem_of_app in Hin as [Hin|Hin].
  - destruct (IH Hin) as (j & Hj & ?). exists j. split; [|done].
    apply elem_of_app. by left.
  - destruct (step_write _ _ _ _ _ _ Hstep Hin) as (j & Hj & ?).
    exists j. split; [|done]. apply elem_of_app. by right.
Qed.

Lemma dumped_enqueued cfg adapter tr y j :
  reachable cfg adapter tr y -> j ∈ dumps tr -> j ∈ enqueues tr.
Proof.
  intros Hr Hj.
  destruct (reachable_Inv _ _ _ _ Hr) as [_ _ _ _ _ _ _ Hfifo].
  rewrite Hfifo. apply elem_of_app. by left.
Qed.

(** X12: nothing is written that was not submitted. Every data write the
    pipeline makes, on the worker or in the final loop, is the write of a
    job that [AddTask] pushed on the queue: it carries the label of that
    job and the data of its staging buffer from its offset, in its size.
    [AddTask] itself never writes data. *)
Theorem writes_were_enqueued cfg adapter tr y nm d sz :
  reachable cfg adapter tr y ->
  EvWrite nm d sz ∈ tr ->
  exists j,
    j ∈ enqueues tr /\ j ∈ dumps tr
    /\ nm = job_name j /\ d = DataBuffer (job_buf j) (job_offset j)
    /\ sz = job_size j.
Proof.
  intros Hr Hin.
  destruct (written_dumped _ _ _ _ _ _ _ Hr Hin) as (j & Hj & Hn).
  exists j. split; [|done]. by apply (dumped_enqueued _ _ _ _ _ Hr).
Qed.

Lemma writes_were_enqueued_witness :
  exists j,
    j ∈ enqueues
          (sample_trace2
           ++ DoDump (m_heap (shared sample_dispatched)) 0 true)
    /\ "first" = job_name j /\ 64 = job_size j.
Proof.
  destruct (writes_were_enqueued None None _ _ "first" (DataBuffer 0 0) 64
              sample_dumped_reachable)
    as (j & Hj & _ & Hn & _ & Hs).
  - apply elem_of_app. right. vm_compute. right. left.
  - exists j. split; [exact Hj|]. split; [exact Hn|exact Hs].
Defined.

Lemma m_write_call_elem f nm d sz k :
  k ∈ m_write_call f nm d sz ->
  sink_name k = nm /\ sink_data k = d /\ sink_size k = sz.
Proof.
  destruct f; simpl; intros Hk;
    repeat (apply elem_of_cons in Hk as [->|Hk]; [done|]);
    by apply elem_of_nil in Hk.
Qed.

(** X3: with [informOnError] off a run leaves no marker behind.
    [m_writeError] writes nothing, whatever the label and the tag, and
    everything the run hands to a sink, file or trace, is the data of a
    job that was queued and dumped, under the label, from the offset and
    in the size of that job. *)
Theorem error_reporter_disabled cfg adapter tr y :
  reachable cfg adapter tr y ->
  from_option informOnError true cfg = false ->
  (forall nm err, sinks (shared y) (EvWriteError nm err) = [])
  /\ forall k, k ∈ persisted (shared y) tr ->
       exists j,
         j ∈ enqueues tr /\ j ∈ dumps tr
         /\ sink_name k = job_name j
         /\ sink_data k = DataBuffer (job_buf j) (job_offset j)
         /\ sink_size k = job_size j.
Proof.
  intros Hr Hinf.
  assert (Hquiet : forall nm err, sinks (shared y) (EvWriteError nm err) = []).
  { intros nm err.
    destruct (reachable_settings _ _ _ _ Hr)
      as (_ & _ & _ & _ & _ & _ & _ & _ & He).
    simpl in *. unfold m_writeError_call. by rewrite He, Hinf. }
  split; [done|].
  intros k Hk. unfold persisted in Hk.
  apply list_elem_of_bind in Hk as (e & Hk & He).
  destruct e as [nm err|nm d sz| | |];
    try (by apply elem_of_nil in Hk).
  - rewrite Hquiet in Hk. by apply elem_of_nil in Hk.
  - apply m_write_call_elem in Hk as (-> & -> & ->).
    destruct (written_dumped _ _ _ _ _ _ _ Hr He) as (j & Hj & Hn & Hd & Hs).
    exists j. split; [by apply (dumped_enqueued _ _ _ _ _ Hr)|]. done.
Qed.

Lemma sample_failed_reachable :
  reachable quiet_cfg None sample_failed_trace sample_failed.
Proof.
  unfold reachable, sample_failed_trace. apply exec_step.
  apply (step_AddTask_returned (start quiet_cfg None) sample_failed_request).
  vm_compute. reflexivity.
Qed.

Lemma error_reporter_disabled_witness :
  error_markers sample_failed_trace = [("frame", "get_surface_size_failed")]
  /\ sinks (shared sample_failed)
       (EvWriteError "frame" "get_surface_size_failed") = [].
Proof.
  split; [vm_compute; reflexivity|].
  exact (proj1 (error_reporter_disabled quiet_cfg None _ _
                  sample_failed_reachable eq_refl) _ _).
Defined.

(** ** After the stop flag *)

Lemma step_after_stop cfg adapter tr y evs y' :
  reachable cfg adapter tr y ->
  m_stopScheduler (shared y) = true ->
  step y evs y' ->
  m_stopScheduler (shared y') = true
  /\ (launched y' + taken y' = launched y + taken y)%nat
  /\ (length (workers y') + taken y' <= length (workers y) + taken y)%nat
  /\ (forall qf, sched y' = SchedLaunch qf -> sched y = SchedLaunch qf).
Proof.
  intros Hr Hstop Hstep.
  destruct (reachable_Inv _ _ _ _ Hr) as [_ _ Hh _ _ _ _ _ _].
  unfold taken.
  destruct Hstep as [y rq s' evs H|y rq s' w H|y l1 w l2 c s' evs Hws H|y
                    |y Hsc Hstop'|y qf q Hsc Hstop' Hrd Hq|y qf Hsc
                    |y l1 w l2 lk Hws Hd|y l1 w l2 s' Hws Hd H
                    |y lk s' evs Hsc Hfut H];
    cbn [shared launched workers sched].
  - pose proof (AddTask_produce (shared y) rq) as HP. rewrite H in HP.
    destruct (produce_queue _ _ _ Hh HP) as (_ & _ & -> & _). done.
  - pose proof (AddTask_produce (shared y) rq) as HP. rewrite H in HP.
    destruct (produce_queue _ _ _ Hh HP) as (_ & _ & -> & _). done.
  - pose proof (AddTask_resume_produce _ _ _ _ _ H) as HP.
    destruct (produce_queue _ _ _ Hh HP) as (_ & _ & -> & _). done.
  - done.
  - rewrite Hsc. done.
  - congruence.
  - rewrite Hsc, length_app. simpl.
    split; [done|]. split; [lia|]. split; [lia|]. done.
  - rewrite Hws, !length_app. simpl.
    split; [done|]. split; [done|]. split; [lia|done].
  - unfold worker_release in H.
    destruct (m_resQueue (shared y)); [done|]. injection H as <-.
    rewrite Hws, !length_app. simpl.
    split; [done|]. split; [done|]. split; [lia|done].
  - unfold ScheduleTasks_drain in H. destruct (drain _ _ _).
    injection H as <- <-. rewrite Hsc. done.
Qed.

(** X13: once the destructor has set the stop flag, the flag stays set
    and the scheduler takes no further job from the queue. Whatever the
    threads do from then on, the only task that can still be launched is
    the one for a job the scheduler had taken before the flag was set (it
    releases the lock before it calls [std::async]): the number of tasks
    launched, plus one while a taken job awaits its launch, never changes,
    and the number of tasks in flight, counted likewise, does not grow. *)
Theorem no_dispatch_after_stop cfg adapter tr y tr' y' :
  reachable cfg adapter tr y ->
  m_stopScheduler (shared y) = true ->
  exec y tr' y' ->
  m_stopScheduler (shared y') = true
  /\ (launched y' + taken y' = launched y + taken y)%nat
  /\ (length (workers y') + taken y' <= length (workers y) + taken y)%nat
  /\ (forall qf, sched y' = SchedLaunch qf -> sched y = SchedLaunch qf).
Proof.
  intros Hr Hstop Hex.
  induction Hex as [y|y tr1 y1 evs y2 Hex IH Hstep].
  - split; [done|]. split; [done|]. split; [lia|done].
  - destruct (IH Hr Hstop) as (S1 & L1 & W1 & T1).
    assert (Hr1 : reachable cfg adapter (tr ++ tr1) y1)
      by (by eapply exec_trans).
    destruct (step_after_stop _ _ _ _ _ _ Hr1 S1 Hstep)
      as (S2 & L2 & W2 & T2).
    split; [done|]. split; [lia|]. split; [lia|].
    intros qf Hq. apply T1. by apply T2.
Qed.

Lemma sample_raced_reachable : reachable None None sample_trace2 sample_raced.
Proof.
  unfold reachable.
  rewrite <- (app_nil_r sample_trace2).
  apply (exec_snoc _ _ sample_taken).
  - rewrite <- (app_nil_r sample_trace2).
    apply (exec_snoc _ _ sample_queued2); [apply sample_queued2_reachable|].
    apply (step_schedule_take sample_queued2 0%nat [1%nat]);
      vm_compute; reflexivity.
  - apply (step_destructor sample_taken).
Qed.

Lemma no_dispatch_after_stop_witness :
  m_stopScheduler (shared sample_raced_launched) = true
  /\ (launched sample_raced_launched + taken sample_raced_launched
      = launched sample_raced + taken sample_raced)%nat.
Proof.
  assert (Hex : exec sample_raced [] sample_raced_launched).
  { apply exec_step.
    apply (step_schedule_launch sample_raced 0%nat). reflexivity. }
  pose proof (no_dispatch_after_stop None None _ _ _ _
                sample_raced_reachable eq_refl Hex) as H.
  exact (conj (proj1 H) (proj1 (proj2 H))).
Defined.

(** ** The scheduler keeps up *)









(** X15: a buffer released by the worker lets a producer waiting for its
    bucket go on. When the worker pops the front job, whose buffer is in
    the vector a suspended [AddTask] holds a reference to, that buffer is
    free afterwards, [m_ready4Dump] is set, and the suspended call can
    resume and proceed to its copy. *)
Theorem release_wakes_waiter cfg adapter tr y s' w copy_ok i :
  reachable cfg adapter tr y ->
  worker_release (shared y) = Some s' ->
  head (m_resQueue (shared y)) = Some i ->
  i ∈ bucket (shared y) (wt_node w) ->
  m_ready4Dump s' = true
  /\ (exists r, m_heap s' !! i = Some r /\ occupied r = false)
  /\ exists s2 evs, AddTask_resume s' w copy_ok = Some (s2, evs).
Proof.
  intros Hr Hrel Hhd Hin.
  destruct (reachable_Inv _ _ _ _ Hr) as [_ _ Hh _ _ _ _ _].
  unfold worker_release in Hrel.
  destruct (m_resQueue (shared y)) as [|k q] eqn:Hq; [done|].
  injection Hhd as ->. injection Hrel as <-.
  assert (Hlt : (i < length (m_heap (shared y)))%nat).
  { apply heap_ok_lookup; [done|]. rewrite Hq. by left. }
  destruct (lookup_lt_is_Some_2 _ _ Hlt) as [r Hi].
  assert (Hfree : free_buffer (m_heap (shared y)) i !! i
                  = Some (mkRes false (size r) (offset r) (name r))).
  { unfold free_buffer. rewrite Hi. by apply list_lookup_insert_eq. }
  split; [done|]. split; [simpl; eauto|].
  unfold AddTask_resume.
  destruct (find_free _ _) as [k|] eqn:Hf; simpl.
  - destruct (stage _ _ _ _ _ _ _). eauto.
  - rewrite find_free_None in Hf. specialize (Hf i _ Hin Hfree). done.
Qed.

Lemma release_wakes_waiter_witness :
  exists s' s2 evs,
    worker_release (shared sample_dumped) = Some s'
    /\ AddTask_resume s' (mkWaiter 0 "third" 0 0 64) true
       = Some (s2, evs).
Proof.
  assert (Hrel : worker_release (shared sample_dumped)
                 = Some (set_ready4Dump true
                           (set_resQueue [1%nat]
                              (set_heap
                                 (free_buffer
                                    (m_heap (shared sample_dumped)) 0)
                                 (shared sample_dumped)))))
    by (vm_compute; reflexivity).
  destruct (release_wakes_waiter None None _ _ _
              (mkWaiter 0 "third" 0 0 64) true 0%nat
              sample_dumped_reachable Hrel)
    as (_ & _ & s2 & evs & H).
  - vm_compute. reflexivity.
  - vm_compute. left.
  - eexists _, s2, evs. split; [exact Hrel|exact H].
Defined.

(** ** The tags of the error markers *)

Lemma DoDump_markers heap i lock_ok nm err :
  (nm, err) ∈ error_markers (DoDump heap i lock_ok) -> err = "lock_failed".
Proof.
  unfold DoDump. destruct (job_of heap i); [|by intros ?%elem_of_nil].
  destruct lock_ok; simpl; [by intros ?%elem_of_nil|].
  by intros [= _ ->]%list_elem_of_singleton.
Qed.

Lemma drain_markers q : forall heap lock_ok heap' evs nm err,
  drain q heap lock_ok = (heap', evs) ->
  (nm, err) ∈ error_markers evs -> err = "lock_failed".
Proof.
  induction q as [|i q IH]; simpl; intros heap lock_ok heap' evs nm err.
  - intros [= <- <-] Hin. by apply elem_of_nil in Hin.
  - destruct (drain q _ lock_ok) as [h e] eqn:Hd. intros [= <- <-].
    rewrite error_markers_app. intros [Hin|Hin]%elem_of_app.
    + by eapply DoDump_markers.
    + by eapply IH.
Qed.

Lemma AddTask_markers s rq s' evs nm err :
  AddTask s rq = Returned s' evs ->
  (nm, err) ∈ error_markers evs ->
  nm = rq_name rq
  /\ err ∈ ["get_surface_size_failed"; "incorrect_size_offset";
            "get_resource_info_failed"; "surface_copy_failed"; "discarded"].
Proof.
  intros H Hin.
  destruct (AddTask_cases s rq)
    as [[Hg E]|[(Hg & e & E & He)|(Hg & sz & w & h & f & _ & _ & _ & E)]];
    rewrite E in H.
  - injection H as <- <-. by apply elem_of_nil in Hin.
  - injection H as <- <-. simpl in Hin.
    apply list_elem_of_singleton in Hin as [= -> ->]. split; [done|].
    rewrite !elem_of_cons. tauto.
  - destruct (AddTask_locked_markers _ _ _ _ _ _ H) as [Hm|[Hm|Hm]];
      rewrite Hm in Hin.
    + by apply elem_of_nil in Hin.
    + apply list_elem_of_singleton in Hin as [= -> ->]. split; [done|].
      rewrite !elem_of_cons. tauto.
    + apply list_elem_of_singleton in Hin as [= -> ->]. split; [done|].
      rewrite !elem_of_cons. tauto.
Qed.

(** X16: the error side channel carries six tags and no other. Every
    marker reported in any run bears one of the five tags of [AddTask]
    ("get_surface_size_failed", "incorrect_size_offset",
    "get_resource_info_failed", "surface_copy_failed", "discarded") or the
    tag "lock_failed" of [DoDump]. *)
Theorem error_tags cfg adapter tr y nm err :
  reachable cfg adapter tr y ->
  (nm, err) ∈ error_markers tr ->
  err ∈ ["get_surface_size_failed"; "incorrect_size_offset";
         "get_resource_info_failed"; "surface_copy_failed"; "discarded";
         "lock_failed"].
Proof.
  unfold reachable. intros Hr.
  induction Hr as [y0|y0 tr y1 evs y2 _ IH Hstep];
    [by intros ?%elem_of_nil|].
  rewrite error_markers_app. intros [Hin|Hin]%elem_of_app; [by apply IH|].
  clear IH.
  assert (Hlock : err = "lock_failed" ->
            err ∈ ["get_surface_size_failed"; "incorrect_size_offset";
                   "get_resource_info_failed"; "surface_copy_failed";
                   "discarded"; "lock_failed"]).
  { intros ->.
    repeat first [apply list_elem_of_here | apply list_elem_of_further]. }
  destruct Hstep as [y rq s' evs H|y rq s' w H|y l1 w l2 c s' evs Hws H|y
                    |y Hsc Hstop|y qf q Hsc Hstop Hrd Hq|y qf Hsc
                    |y l1 w l2 lk Hws Hd|y l1 w l2 s' Hws Hd H
                    |y lk s' evs Hsc Hfut H];
    try (by apply elem_of_nil in Hin).
  - destruct (AddTask_markers _ _ _ _ _ _ H Hin) as [_ He].
    change (err ∈ (["get_surface_size_failed"; "incorrect_size_offset";
                    "get_resource_info_failed"; "surface_copy_failed";
                    "discarded"] ++ ["lock_failed"])).
    apply elem_of_app. by left.
  - unfold AddTask_resume in H.
    destruct (find_free _ _) as [i|]; simpl in H; [|done].
    injection H as H.
    rewrite (stage_markers _ _ _ _ _ _ _ _ _ H) in Hin.
    destruct c; [by apply elem_of_nil in Hin|].
    apply list_elem_of_singleton in Hin as [= -> ->].
    repeat first [apply list_elem_of_here | apply list_elem_of_further].
  - apply Hlock. by eapply DoDump_markers.
  - unfold ScheduleTasks_drain in H.
    destruct (drain _ _ lk) as [heap' evs'] eqn:Hdr. injection H as <- <-.
    apply Hlock. by eapply drain_markers.
Qed.

Lemma error_tags_witness :
  let rq := mkRequest 0 None 0 None true true "frame" 0 0 None in
  "get_surface_size_failed"
  ∈ ["get_surface_size_failed"; "incorrect_size_offset";
     "get_resource_info_failed"; "surface_copy_failed"; "discarded";
     "lock_failed"].
Proof.
  cbv zeta.
  apply (error_tags None None
           (outcome_events
              (AddTask (init None None)
                 (mkRequest 0 None 0 None true true "frame" 0 0 None)))
           (after_AddTask (start None None)
              (mkRequest 0 None 0 None true true "frame" 0 0 None))
           "frame").
  - apply exec_step. apply step_AddTask_returned. reflexivity.
  - vm_compute. left.
Defined.

(** ** The sampling window, and where [size_t] wraps *)

(** X17: sampling repeats with the period samplingTime + samplingInterval,
    and in each period the window is open from its start to samplingTime
    inclusive: at k periods plus r milliseconds, r below the period, a
    call is let through exactly when r <= samplingTime. With a sampling
    interval of 0 every call is let through. The durations are [size_t]
    milliseconds whose sum is one too and is not 0. *)
Theorem sampling_window cfg adapter tr y k r :
  let active := from_option samplingTime 0 cfg in
  let idle := from_option samplingInterval 0 cfg in
  reachable cfg adapter tr y ->
  SizeT.ok active -> SizeT.ok idle -> active + idle <= SizeT.max ->
  0 < active + idle ->
  0 <= r < active + idle ->
  m_2CacheTask_call (shared y) (k * (active + idle) + r) = (r <=? active)
  /\ (idle = 0 -> forall elapsed,
        m_2CacheTask_call (shared y) elapsed = true).
Proof.
  intros active idle Hr Ha Hi Hsum Hpos Hrange.
  destruct (reachable_settings _ _ _ _ Hr)
    as (_ & _ & _ & Ht & Hv & Hc & _).
  simpl in Ht, Hv, Hc. fold active idle in Ht, Hv, Hc.
  rewrite (SizeTFacts.wrap_small _ Ha) in Ht, Hc.
  rewrite (SizeTFacts.wrap_small _ Hi) in Hv, Hc.
  assert (Hadd : SizeT.add active idle = active + idle).
  { apply SizeTFacts.add_exact; [apply Ha|apply Hi|done]. }
  assert (Hspec : forall elapsed,
            m_2CacheTask_call (shared y) elapsed
            = (elapsed mod (active + idle) <=? active)).
  { intros elapsed.
    rewrite m_2CacheTask_call_spec by (by rewrite Ht, Hv).
    rewrite Ht, Hv, Hadd.
    destruct (Z.eqb_spec (active + idle) 0); [lia|done]. }
  split.
  - rewrite Hspec. f_equal.
    rewrite Z.add_comm, Z_mod_plus_full. by apply Z.mod_small.
  - intros H0 elapsed. rewrite Hspec. apply Z.leb_le.
    pose proof (Z.mod_pos_bound elapsed (active + idle) Hpos). lia.
Qed.

Lemma sampling_window_witness :
  let cfg := Some (mkConfig true false true true 75 0 100 50) in
  m_2CacheTask_call (init cfg None) (7 * (100 + 50) + 100) = true
  /\ m_2CacheTask_call (init cfg None) (7 * (100 + 50) + 101) = false.
Proof.
  cbv zeta.
  set (cfg := Some (mkConfig true false true true 75 0 100 50)).
  assert (H100 : SizeT.ok 100)
    by (unfold SizeT.ok, SizeT.max, SizeT.modulus; lia).
  assert (H50 : SizeT.ok 50)
    by (unfold SizeT.ok, SizeT.max, SizeT.modulus; lia).
  assert (Hsum : 100 + 50 <= SizeT.max)
    by (unfold SizeT.max, SizeT.modulus; lia).
  split.
  - refine (proj1 (sampling_window cfg None [] (start cfg None) 7 100
                     (exec_nil _) H100 H50 Hsum _ _)); simpl; lia.
  - refine (proj1 (sampling_window cfg None [] (start cfg None) 7 101
                     (exec_nil _) H100 H50 Hsum _ _)); simpl; lia.
Defined.

Lemma add_wrapped a b :
  SizeT.ok a -> SizeT.ok b -> SizeT.max < a + b ->
  SizeT.add a b = a + b - SizeT.modulus.
Proof.
  unfold SizeT.ok, SizeT.add, SizeT.wrap, SizeT.max. intros Ha Hb Hlt.
  replace (a + b) with ((a + b - SizeT.modulus) + 1 * SizeT.modulus) at 1
    by lia.
  rewrite Z_mod_plus_full. apply Z.mod_small. unfold SizeT.modulus in *. lia.
Qed.

(** X18: the size check of [AddTask] is made on the [size_t] sum, which
    wraps. A request whose offset and dumpSize add up to 2^64 or more, and
    whose sum less 2^64 is at most the size of the resource, is not
    reported as "incorrect_size_offset"; when it is queued, the range of
    its job, offset + size, lies beyond the end of the resource. *)
Theorem size_check_wraps s rq sz s' evs :
  m_2CacheTask_call s (rq_elapsed rq) = true ->
  rq_gmm rq = Some sz ->
  SizeT.ok (rq_offset rq) -> SizeT.ok (rq_dumpSize rq) ->
  SizeT.max < rq_offset rq + rq_dumpSize rq ->
  rq_offset rq + rq_dumpSize rq - SizeT.modulus <= SizeT.wrap sz ->
  AddTask s rq = Returned s' evs ->
  (forall nm, ~ (nm, "incorrect_size_offset") ∈ error_markers evs)
  /\ (forall j, j ∈ enqueues evs ->
        job_offset j = rq_offset rq /\ job_size j = rq_dumpSize rq
        /\ SizeT.wrap sz < job_offset j + job_size j).
Proof.
  intros Hg Hgmm Ho Hd Hlt Hle H.
  pose proof (add_wrapped _ _ Ho Hd Hlt) as Hadd.
  pose proof (SizeTFacts.wrap_ok sz) as [_ Hw].
  unfold AddTask in H. rewrite Hg, Hgmm in H. simpl in H.
  destruct (Z.ltb_spec (SizeT.wrap sz)
              (SizeT.add (rq_offset rq) (rq_dumpSize rq))) as [Hc|Hc];
    [lia|].
  destruct (rq_details rq) as [[[w h] f]|].
  - split.
    + intros nm Hin.
      destruct (AddTask_locked_markers _ _ _ _ _ _ H) as [E|[E|E]];
        rewrite E in Hin.
      * by apply elem_of_nil in Hin.
      * by apply list_elem_of_singleton in Hin.
      * by apply list_elem_of_singleton in Hin.
    + intros j Hj.
      destruct (AddTask_locked_outcome _ _ _ _ _ _ H)
        as [(i & _ & He & _)|(He & _)]; rewrite He in Hj;
        [|by apply elem_of_nil in Hj].
      apply list_elem_of_singleton in Hj as ->. simpl.
      destruct Ho as [_ Ho].
      destruct (Z.eqb_spec (rq_dumpSize rq) 0); [lia|]. lia.
  - injection H as <- <-. split.
    + intros nm Hin. by apply list_elem_of_singleton in Hin.
    + intros j Hj. by apply elem_of_nil in Hj.
Qed.

Lemma size_check_wraps_witness :
  let rq :=
    mkRequest 0 (Some 64) 0 (Some (8, 8, 0)) true true "frame" 2 SizeT.max None in
  let j := mkJob 0 "frame" SizeT.max 2 in
  j ∈ enqueues (outcome_events (AddTask (init None None) rq))
  /\ SizeT.wrap 64 < job_offset j + job_size j.
Proof.
  cbv zeta.
  assert (HA : AddTask (init None None)
                 (mkRequest 0 (Some 64) 0 (Some (8, 8, 0)) true true "frame" 2
                    SizeT.max None)
               = Returned
                   (outcome_state
                      (AddTask (init None None)
                         (mkRequest 0 (Some 64) 0 (Some (8, 8, 0)) true true
                            "frame" 2 SizeT.max None)))
                   (outcome_events
                      (AddTask (init None None)
                         (mkRequest 0 (Some 64) 0 (Some (8, 8, 0)) true true
                            "frame" 2 SizeT.max None))))
    by (vm_compute; reflexivity).
  assert (Hj : mkJob 0 "frame" SizeT.max 2
               ∈ enqueues
                   (outcome_events
                      (AddTask (init None None)
                         (mkRequest 0 (Some 64) 0 (Some (8, 8, 0)) true true
                            "frame" 2 SizeT.max None))))
    by (vm_compute; left).
  assert (H2 : SizeT.ok 2)
    by (unfold SizeT.ok, SizeT.max, SizeT.modulus; lia).
  assert (Hlt : SizeT.max < SizeT.max + 2) by lia.
  assert (Hle : SizeT.max + 2 - SizeT.modulus <= SizeT.wrap 64)
    by (vm_compute; discriminate).
  pose proof (size_check_wraps (init None None)
                (mkRequest 0 (Some 64) 0 (Some (8, 8, 0)) true true "frame" 2
                   SizeT.max None) 64 _ _ eq_refl eq_refl
                SizeTFacts.max_ok H2 Hlt Hle HA) as [_ H].
  exact (conj Hj (proj2 (proj2 (H _ Hj)))).
Defined.

(** X19: sampling is switched off by the [size_t] sum of the two
    durations, not by the durations. When samplingTime and
    samplingInterval add up to exactly 2^64 milliseconds their sum wraps to
    0 and every call is let through, though neither duration is 0. *)
Theorem sampling_sum_wraps cfg adapter tr y elapsed :
  let active := from_option samplingTime 0 cfg in
  let idle := from_option samplingInterval 0 cfg in
  reachable cfg adapter tr y ->
  SizeT.ok active -> SizeT.ok idle ->
  active + idle = SizeT.modulus ->
  m_2CacheTask (shared y) = CacheAlways
  /\ m_2CacheTask_call (shared y) elapsed = true
  /\ 0 < active /\ 0 < idle.
Proof.
  intros active idle Hr Ha Hi Hsum.
  destruct (reachable_settings _ _ _ _ Hr)
    as (_ & _ & _ & Ht & Hv & Hc & _).
  simpl in Ht, Hv, Hc. fold active idle in Ht, Hv, Hc.
  rewrite (SizeTFacts.wrap_small _ Ha) in Hc.
  rewrite (SizeTFacts.wrap_small _ Hi) in Hc.
  assert (Hadd : SizeT.add active idle = 0).
  { rewrite add_wrapped; [lia|done|done|].
    unfold SizeT.max. lia. }
  rewrite Hadd in Hc. simpl in Hc.
  split; [done|]. split; [unfold m_2CacheTask_call; by rewrite Hc|].
  unfold SizeT.ok, SizeT.max in *. lia.
Qed.

Lemma sampling_sum_wraps_witness :
  let cfg :=
    Some (mkConfig true false true true 75 0 (2 ^ 63) (2 ^ 63)) in
  m_2CacheTask_call (init cfg None) (2 ^ 63 + 1) = true.
Proof.
  cbv zeta.
  assert (Hok : SizeT.ok (2 ^ 63))
    by (unfold SizeT.ok, SizeT.max, SizeT.modulus; lia).
  refine (proj1 (proj2 (sampling_sum_wraps
                          (Some (mkConfig true false true true 75 0
                                   (2 ^ 63) (2 ^ 63)))
                          None [] (start _ None) (2 ^ 63 + 1)
                          (exec_nil _) Hok Hok _))).
  reflexivity.
Defined.
